(** * Document search: the chunker and the vector index store

    A shallow embedding of the two components of
    [HackIndia_Hackathon/document-search/document-search/backend] that carry
    the algorithmic content of the repository:

    - [document_processor/processor.py], [DocumentProcessor._chunk_text]
      (module [Chunker] below);
    - [search/engine.py], class [SearchEngine] (module [Store] below).

    Python integers are [Z]; a Python [str] is a list of characters; a Python
    [dict] used as a record is a [gmap] from field names to values; a loop
    that may run forever is a function with fuel. *)

From Stdlib Require Import Ascii String ZArith QArith Lia Lqa.
From stdpp Require Import gmap strings list fin_maps sorting pretty.

Local Open Scope Z_scope.

(** * Python's sequence primitives *)

Module Py.

(** A Python [str], as the sequence of its characters. *)
Abbreviation text := (list ascii).

Definition len {A} (l : list A) : Z := Z.of_nat (length l).

(** One bound of a slice, as [PySlice_AdjustIndices] normalises it: a
    negative bound counts from the end, and the result is clipped to
    [0 .. n]. *)
Definition adjust (n i : Z) : Z :=
  if i <? 0 then Z.max 0 (i + n) else Z.min i n.

(** [s[i:j]] *)
Definition slice {A} (s : list A) (i j : Z) : list A :=
  let lo := adjust (len s) i in
  let hi := adjust (len s) j in
  take (Z.to_nat (hi - lo)) (drop (Z.to_nat lo) s).

(** Does [sub] occur in [s] at position [i]? *)
Definition match_at (s sub : text) (i : nat) : bool :=
  bool_decide (take (length sub) (drop i s) = sub) &&
  bool_decide (i + length sub <= length s)%nat.

(** The backward scan of [rfind]: the candidates [lo + n - 1], ...,
    [lo + 1], [lo] are tried in this order. *)
Fixpoint rfind_from (s sub : text) (lo : Z) (n : nat) : Z :=
  match n with
  | O => -1
  | S n' =>
      if match_at s sub (Z.to_nat (lo + Z.of_nat n'))
      then lo + Z.of_nat n'
      else rfind_from s sub lo n'
  end.

(** [s.rfind(sub, i, j)]: the highest index at which [sub] lies within
    [s[i:j]], or [-1]. *)
Definition rfind (s sub : text) (i j : Z) : Z :=
  let lo := adjust (len s) i in
  let hi := adjust (len s) j in
  rfind_from s sub lo (Z.to_nat (hi - len sub - lo + 1)).

(** [str.isspace] on one character, for the code points below 256. *)
Definition is_space (c : ascii) : bool :=
  let n := nat_of_ascii c in
  ((9 <=? n) && (n <=? 13) || (28 <=? n) && (n <=? 32) ||
   (n =? 133) || (n =? 160))%nat.

Fixpoint lstrip (s : text) : text :=
  match s with
  | c :: s' => if is_space c then lstrip s' else s
  | [] => []
  end.

Definition rstrip (s : text) : text := rev (lstrip (rev s)).

(** [s.strip()] *)
Definition strip (s : text) : text := rstrip (lstrip s).

(** [sub] occurs in [s] at the (non-negative) position [p]. *)
Definition occurs (s sub : text) (p : Z) : Prop :=
  0 <= p /\ match_at s sub (Z.to_nat p) = true.

(** [p] is the last occurrence of [sub] that lies within [s[lo:hi]]. *)
Definition last_within (s sub : text) (lo hi p : Z) : Prop :=
  occurs s sub p /\ lo <= p /\ p + len sub <= hi /\
  forall q, occurs s sub q -> lo <= q -> q + len sub <= hi -> q <= p.

(** [sub] does not occur within [s[lo:hi]]. *)
Definition absent_within (s sub : text) (lo hi : Z) : Prop :=
  forall q, occurs s sub q -> lo <= q -> q + len sub <= hi -> False.

End Py.

(** * The chunker: [DocumentProcessor._chunk_text] *)

Module Chunker.
Import Py.

Definition LF : ascii := "010"%char.
Definition paragraph_delim : text := [LF; LF].
Definition line_delim : text := [LF].
Definition sentence_delim : text := ["."%char; " "%char].
Definition space_delim : text := [" "%char].

Record DocumentProcessor := {
  chunk_size : Z;
  chunk_overlap : Z
}.

Section Loop.
Variable self : DocumentProcessor.
Variable txt : text.

Let text_length : Z := len txt.

(** The body of the loop up to the value of [end] at line 197: the candidate
    end and the search for a breaking point. *)
Definition chunk_end (start : Z) : Z :=
  let end_ := Z.min (start + chunk_size self) text_length in
  if end_ <? text_length then
    let paragraph_break := rfind txt paragraph_delim start end_ in
    if negb (paragraph_break =? -1) &&
       (start + chunk_size self / 2 <? paragraph_break)
    then paragraph_break + 2
    else
      let line_break := rfind txt line_delim start end_ in
      if negb (line_break =? -1) &&
         (start + chunk_size self / 2 <? line_break)
      then line_break + 1
      else
        let sentence_end := rfind txt sentence_delim start end_ in
        if negb (sentence_end =? -1) &&
           (start + chunk_size self / 2 <? sentence_end)
        then sentence_end + 2
        else
          let space := rfind txt space_delim start end_ in
          if negb (space =? -1) &&
             (start + chunk_size self / 2 <? space)
          then space + 1
          else end_
  else end_.

(** Where a run of the loop stands: it has returned [chunks], or it is
    about to test the loop condition again with the given [start] and
    [chunks] when the fuel ran out. *)
Inductive run :=
| Returned (chunks : list text)
| Running (start : Z) (chunks : list text).

(** The [while] loop of lines 172-202; one unit of fuel per iteration. *)
Fixpoint chunk_loop (fuel : nat) (start : Z) (chunks : list text) : run :=
  match fuel with
  | O => Running start chunks
  | S fuel' =>
      if start <? text_length then
        let end_ := chunk_end start in
        let chunks' := chunks ++ [strip (slice txt start end_)] in
        let start' := end_ - chunk_overlap self in
        if end_ <=? start' then Returned chunks'
        else chunk_loop fuel' start' chunks'
      else Returned chunks
  end.

Definition chunk_run (fuel : nat) : run :=
  match txt with
  | [] => Returned []
  | _ => chunk_loop fuel 0 []
  end.

(** The chunks appended so far, whether or not the call has returned. *)
Definition emitted (r : run) : list text :=
  match r with
  | Returned chunks => chunks
  | Running _ chunks => chunks
  end.

(** [_chunk_text(text)]: [None] when the call has not returned within
    [fuel] iterations. *)
Definition _chunk_text (fuel : nat) : option (list text) :=
  match chunk_run fuel with
  | Returned chunks => Some chunks
  | Running _ _ => None
  end.

End Loop.

Definition T (s : string) : text := list_ascii_of_string s.

(** ** What the properties below are stated with *)

(** The position tested against a breaking point: [start + chunk_size // 2]. *)
Definition midpoint (self : DocumentProcessor) (start : Z) : Z :=
  start + chunk_size self / 2.

(** [p] is the last occurrence of the delimiter [sub] inside
    [text[start:start + chunk_size]], and it lies strictly past the
    midpoint. *)
Definition break_at (self : DocumentProcessor) (txt : text) (start : Z)
    (sub : text) (p : Z) : Prop :=
  last_within txt sub (adjust (len txt) start)
    (adjust (len txt) (start + chunk_size self)) p /\
  midpoint self start < p.

(** No occurrence of [sub] inside [text[start:start + chunk_size]] lies
    strictly past the midpoint. *)
Definition no_break (self : DocumentProcessor) (txt : text) (start : Z)
    (sub : text) : Prop :=
  forall q, occurs txt sub q ->
    adjust (len txt) start <= q ->
    q + len sub <= adjust (len txt) (start + chunk_size self) ->
    q <= midpoint self start.

(** Concatenation of the chunks with the overlap of each successor removed. *)
Definition reconstruct (overlap : Z) (chunks : list text) : text :=
  match chunks with
  | [] => []
  | c :: cs => c ++ concat (map (drop (Z.to_nat overlap)) cs)
  end.

(** The text holds no whitespace, so that trimming removes nothing. *)
Definition no_whitespace (txt : text) : bool :=
  forallb (fun c => negb (is_space c)) txt.

(** ** The breaking point, following the words of the specification

    Section 4.1 of the specification: search backward from the candidate end
    toward [start + size/2] for (a) a paragraph break, (b) a line break,
    (c) a sentence terminator followed by whitespace, (d) a word boundary
    (space); the first match strictly past [start + size/2] wins and the
    chunk ends just past the delimiter. *)

Definition is_sentence_terminator (c : ascii) : bool :=
  bool_decide (c = "."%char) || bool_decide (c = "!"%char) ||
  bool_decide (c = "?"%char).

Definition spec_sentence_break (txt : text) (p : nat) : bool :=
  match txt !! p, txt !! S p with
  | Some a, Some b => is_sentence_terminator a && is_space b
  | _, _ => false
  end.

(** The positions [mid + n], ..., [mid + 1], nearest the candidate end
    first. *)
Fixpoint spec_search_back (found : nat -> bool) (mid : Z) (n : nat) : option Z :=
  match n with
  | O => None
  | S n' =>
      let p := mid + Z.of_nat n in
      if (0 <=? p) && found (Z.to_nat p) then Some p
      else spec_search_back found mid n'
  end.

(** A delimiter of width [w] that ends at or before the candidate end. *)
Definition spec_find (found : nat -> bool) (w mid cand : Z) : option Z :=
  spec_search_back found mid (Z.to_nat (cand - w - mid)).

Definition spec_chunk_end (size : Z) (txt : text) (start : Z) : Z :=
  let cand := Z.min (start + size) (len txt) in
  let mid := start + size / 2 in
  if cand <? len txt then
    match spec_find (match_at txt paragraph_delim) 2 mid cand with
    | Some p => p + 2
    | None =>
    match spec_find (match_at txt line_delim) 1 mid cand with
    | Some p => p + 1
    | None =>
    match spec_find (spec_sentence_break txt) 2 mid cand with
    | Some p => p + 2
    | None =>
    match spec_find (match_at txt space_delim) 1 mid cand with
    | Some p => p + 1
    | None => cand
    end end end end
  else cand.


End Chunker.

(** * The vector index store: [SearchEngine] *)

Module Store.
Import Py.

(** ** Values, exceptions and results *)

Inductive exn :=
| KeyError | TypeError | ValueError | AssertionError | IndexError
| FileNotFoundError | RuntimeError | UnpicklingError.

(** A call returns a value or raises. *)
Inductive result (A : Type) :=
| Ok (a : A)
| Raise (e : exn).
Arguments Ok {A} a.
Arguments Raise {A} e.

(** What a metadata dictionary holds: strings and integers. The document id
    is a string and the chunk id an integer in the ingestion pipeline; the
    pipeline's floating-point timestamps play no part in the store and are
    left out. *)
Inductive atom :=
| AStr (s : string)
| AInt (z : Z).

(** What a document dictionary holds under its keys: ['text'] is a string,
    ['metadata'] a dictionary, ['embedding'] a vector, ['score'] a number.
    Floating-point numbers are idealised as rationals. *)
Inductive value :=
| VStr (s : string)
| VInt (z : Z)
| VFloat (x : Q)
| VVec (v : list Q)
| VDict (m : gmap string atom).

(** A document: a Python [dict] with string keys. *)
Abbreviation document := (gmap string value).

(** [str(a)], as an f-string formats the value. *)
Definition py_str (a : atom) : string :=
  match a with
  | AStr s => s
  | AInt z => pretty z
  end.

(** ** The FAISS flat index

    [faiss.IndexFlatL2] is a library class, not code of this repository; it
    is modelled by what its documentation says: the index keeps the vectors
    it was given, in order, and a search returns the [k] nearest stored
    vectors by squared Euclidean distance, nearest first, padded with the
    label [-1] when it has fewer than [k] vectors to report. It computes in
    float32: the rounding is left out, the end of the range is not. *)

Record IndexFlatL2 := {
  d : nat;
  xb : list (list Q)
}.

Definition ntotal (ix : IndexFlatL2) : nat := length (xb ix).

(** [index.add(x)] for an [n] by [m] matrix: the wrapper asserts [m == d]. *)
Definition index_add (ix : IndexFlatL2) (x : list (list Q)) : result IndexFlatL2 :=
  if forallb (fun row => length row =? d ix)%nat x
  then Ok {| d := d ix; xb := xb ix ++ x |}
  else Raise AssertionError.

Definition sq_dist (x y : list Q) : Q :=
  foldr Qplus 0%Q (zip_with (fun a b => (a - b) * (a - b))%Q x y).

Definition by_distance : relation (Q * Z) := fun a b => (a.1 <= b.1)%Q.

#[global] Instance by_distance_dec : RelDecision by_distance.
Proof. intros a b. unfold by_distance, Qle. apply _. Defined.

(** The largest float32, which is also the distance FAISS reports next to
    a missing label. *)
Definition FLT_MAX : Q := 340282346638528859811704183484516925440%Q.

(** A coordinate that [astype('float32')] (lines 43 and 76) keeps finite;
    one beyond the range becomes an infinity. The index keeps the
    coordinates as rationals, and one beyond the range stands for that
    infinity. *)
Definition finite (x : Q) : bool :=
  Qle_bool (- FLT_MAX) x && Qle_bool x FLT_MAX.

(** The squared distance as the result heap of FAISS takes it in. The heap
    starts filled with [FLT_MAX] and a candidate enters only when its
    distance is smaller, so a distance that is infinite or not a number (a
    coordinate is infinite) or that float32 cannot hold below [FLT_MAX] is
    never reported: [None]. Rounding apart, the other distances are
    exact. *)
Definition fvec_L2sqr (q x : list Q) : option Q :=
  if forallb finite q && forallb finite x then
    let dist := sq_dist q x in
    if Qle_bool FLT_MAX dist then None else Some dist
  else None.

(** [index.search(q, k)] for a single query row: the pairs (distance,
    label), nearest first. Equal distances are left in storage order; FAISS
    does not fix their order and nothing below depends on it. *)
Definition index_search (ix : IndexFlatL2) (q : list Q) (k : Z)
    : result (list (Q * Z)) :=
  if negb (length q =? d ix)%nat then Raise AssertionError
  else if k <=? 0 then Raise AssertionError
  else
    let scored :=
      imap (fun i x => (fun dist => (dist, Z.of_nat i)) <$> fvec_L2sqr q x)
        (xb ix) in
    let found := omap id scored in
    let best := take (Z.to_nat k) (merge_sort by_distance found) in
    Ok (best ++ replicate (Z.to_nat k - length best)%nat (FLT_MAX, -1)).

(** ** The store *)

Record SearchEngine := {
  embedding_dim : nat;
  index : IndexFlatL2;
  documents : list document;
  doc_ids_to_indices : gmap string nat
}.

Definition set_index (self : SearchEngine) (ix : IndexFlatL2) : SearchEngine :=
  {| embedding_dim := embedding_dim self; index := ix;
     documents := documents self;
     doc_ids_to_indices := doc_ids_to_indices self |}.

Definition set_documents (self : SearchEngine) (docs : list document) : SearchEngine :=
  {| embedding_dim := embedding_dim self; index := index self;
     documents := docs;
     doc_ids_to_indices := doc_ids_to_indices self |}.

Definition set_doc_ids_to_indices (self : SearchEngine) (m : gmap string nat)
    : SearchEngine :=
  {| embedding_dim := embedding_dim self; index := index self;
     documents := documents self;
     doc_ids_to_indices := m |}.

(** [SearchEngine(embedding_dim)] with no saved index to load. *)
Definition new_engine (embedding_dim : nat) : SearchEngine :=
  {| embedding_dim := embedding_dim;
     index := {| d := embedding_dim; xb := [] |};
     documents := [];
     doc_ids_to_indices := ∅ |}.

(** ** [add_documents] *)

(** [[doc['embedding'] for doc in docs]] *)
Fixpoint embeddings_of (docs : list document) : result (list value) :=
  match docs with
  | [] => Ok []
  | doc :: docs' =>
      match doc !! "embedding" with
      | None => Raise KeyError
      | Some v =>
          match embeddings_of docs' with
          | Ok vs => Ok (v :: vs)
          | Raise e => Raise e
          end
      end
  end.

Definition as_row (v : value) : result (list Q) :=
  match v with
  | VVec row => Ok row
  | VDict _ => Raise TypeError
  | _ => Raise ValueError
  end.

Fixpoint as_rows (vs : list value) : result (list (list Q)) :=
  match vs with
  | [] => Ok []
  | v :: vs' =>
      match as_row v with
      | Raise e => Raise e
      | Ok row =>
          match as_rows vs' with
          | Ok rows => Ok (row :: rows)
          | Raise e => Raise e
          end
      end
  end.

(** [np.array(vs).astype('float32')], as the two-dimensional array that
    [index.add] unpacks: every element is a vector and all have one
    length. The coordinates are kept as they are; what the conversion does
    to one beyond the range of float32 is accounted for where distances are
    computed, in [fvec_L2sqr]. *)
Definition np_array (vs : list value) : result (list (list Q)) :=
  match as_rows vs with
  | Raise e => Raise e
  | Ok rows =>
      match rows with
      | [] => Ok []
      | row :: _ =>
          if forallb (fun r => length r =? length row)%nat rows
          then Ok rows else Raise ValueError
      end
  end.

(** [doc['metadata'][key]] *)
Definition metadata_get (doc : document) (key : string) : result atom :=
  match doc !! "metadata" with
  | None => Raise KeyError
  | Some (VDict m) =>
      match m !! key with
      | Some a => Ok a
      | None => Raise KeyError
      end
  | Some _ => Raise TypeError
  end.

(** [f"{doc_id}_{chunk_id}"] *)
Definition unique_id (doc_id chunk_id : atom) : string :=
  py_str doc_id +:+ "_" +:+ py_str chunk_id.

(** The loop of lines 50-59; [i] is the counter of [enumerate]. *)
Fixpoint add_loop (start_idx i : nat) (docs : list document) (self : SearchEngine)
    : result () * SearchEngine :=
  match docs with
  | [] => (Ok (), self)
  | doc :: docs' =>
      let doc_copy := delete "embedding" doc in
      let self1 := set_documents self (documents self ++ [doc_copy]) in
      match metadata_get doc "doc_id" with
      | Raise e => (Raise e, self1)
      | Ok doc_id =>
          match metadata_get doc "chunk_id" with
          | Raise e => (Raise e, self1)
          | Ok chunk_id =>
              add_loop start_idx (S i) docs'
                (set_doc_ids_to_indices self1
                   (<[unique_id doc_id chunk_id := (start_idx + i)%nat]>
                      (doc_ids_to_indices self1)))
          end
      end
  end.

Definition add_documents (self : SearchEngine) (docs : list document)
    : result () * SearchEngine :=
  match docs with
  | [] => (Ok (), self)
  | _ =>
      match embeddings_of docs with
      | Raise e => (Raise e, self)
      | Ok vs =>
          match np_array vs with
          | Raise e => (Raise e, self)
          | Ok embeddings =>
              let start_idx := length (documents self) in
              match index_add (index self) embeddings with
              | Raise e => (Raise e, self)
              | Ok ix => add_loop start_idx 0 docs (set_index self ix)
              end
          end
      end
  end.

(** ** [search] *)

(** The position [l[i]] reads, with Python's negative indices. *)
Definition position {A} (l : list A) (i : Z) : option nat :=
  let i' := if i <? 0 then i + len l else i in
  if (0 <=? i') && (i' <? len l) then Some (Z.to_nat i') else None.

(** The loop of lines 83-88. [doc] is the stored dictionary itself, so the
    assignment to [doc['score']] writes into [self.documents]; [results]
    holds references to stored dictionaries, here their positions. *)
Fixpoint search_loop (hits : list (Q * Z)) (documents : list document)
    (results : list nat) : result (list nat) * list document :=
  match hits with
  | [] => (Ok results, documents)
  | (dist, idx) :: hits' =>
      if idx =? -1 then search_loop hits' documents results
      else
        match position documents idx with
        | None => (Raise IndexError, documents)
        | Some i =>
            match documents !! i with
            | None => (Raise IndexError, documents)
            | Some doc =>
                let doc' := <["score" := VFloat (1 / (1 + dist))]> doc in
                search_loop hits' (<[i := doc']> documents) (results ++ [i])
            end
        end
  end.

(** [search(query_embedding, top_k)]: the references returned and the store
    afterwards. *)
Definition search (self : SearchEngine) (query_embedding : list Q) (top_k : Z)
    : result (list nat) * SearchEngine :=
  if (length (documents self) =? 0)%nat then (Ok [], self)
  else
    match index_search (index self) query_embedding
            (Z.min top_k (len (documents self))) with
    | Raise e => (Raise e, self)
    | Ok hits =>
        let '(r, docs) := search_loop hits (documents self) [] in
        (r, set_documents self docs)
    end.

(** The dictionaries the caller holds after the call returns: the stored
    dictionaries the references point to. *)
Definition deref (docs : list document) (refs : list nat) : list document :=
  omap (fun i => docs !! i) refs.

Definition search_results (self : SearchEngine) (query_embedding : list Q)
    (top_k : Z) : result (list document) :=
  match search self query_embedding top_k with
  | (Ok refs, self') => Ok (deref (documents self') refs)
  | (Raise e, _) => Raise e
  end.

(** The score a returned dictionary carries. *)
Definition score_of (doc : document) : option Q :=
  match doc !! "score" with
  | Some (VFloat x) => Some x
  | _ => None
  end.

(** ** [save_index] and [load_index] *)

(** What a file holds: an index written by [faiss.write_index]; a pickled
    dictionary, which has the keys ['documents'] and ['doc_ids_to_indices']
    when [save_index] wrote it (lines 109-112) and may lack either
    otherwise; or a pickled value that cannot be subscripted with a string,
    a list or a number. Both libraries are taken to read back what they
    wrote. *)
Inductive blob :=
| IndexBlob (ix : IndexFlatL2)
| PickleBlob (documents : option (list document))
    (doc_ids_to_indices : option (gmap string nat))
| PickleValue.

(** The files, by path. Directories are not modelled: of what
    [os.makedirs] does only the refusal of an empty name is kept, and a
    write to a path with a directory part is taken to succeed. *)
Abbreviation files := (gmap string blob).

(** [os.path.dirname(path) == ''], which is when [path] has no slash;
    [os.makedirs('')] raises [FileNotFoundError]. *)
Definition dirname_empty (path : string) : bool :=
  negb (existsb (fun c => bool_decide (c = "/"%char)) (list_ascii_of_string path)).

Definition save_index (self : SearchEngine) (index_path docs_path : string)
    (fs : files) : result () * files :=
  if dirname_empty index_path then (Raise FileNotFoundError, fs)
  else if dirname_empty docs_path then (Raise FileNotFoundError, fs)
  else
    let fs1 := <[index_path := IndexBlob (index self)]> fs in
    (Ok (),
     <[docs_path := PickleBlob (Some (documents self))
                      (Some (doc_ids_to_indices self))]> fs1).

(** Lines 125-129, one assignment after the other: the index is replaced
    before the records file is opened, and the records before the second
    key is looked up. *)
Definition load_index (self : SearchEngine) (index_path docs_path : string)
    (fs : files) : result () * SearchEngine :=
  match fs !! index_path with
  | Some (IndexBlob ix) =>
      let self1 := set_index self ix in
      match fs !! docs_path with
      | Some (PickleBlob data_documents data_doc_ids_to_indices) =>
          match data_documents with
          | None => (Raise KeyError, self1)
          | Some docs =>
              let self2 := set_documents self1 docs in
              match data_doc_ids_to_indices with
              | None => (Raise KeyError, self2)
              | Some ids => (Ok (), set_doc_ids_to_indices self2 ids)
              end
          end
      | Some PickleValue => (Raise TypeError, self1)
      | Some (IndexBlob _) => (Raise UnpicklingError, self1)
      | None => (Raise FileNotFoundError, self1)
      end
  | _ => (Raise RuntimeError, self)
  end.

(** ** What the properties below are stated with *)

(** The identity key line 58 computes for a record, when its metadata holds
    both ids. *)
Definition key_of (doc : document) : option string :=
  match metadata_get doc "doc_id", metadata_get doc "chunk_id" with
  | Ok doc_id, Ok chunk_id => Some (unique_id doc_id chunk_id)
  | _, _ => None
  end.

Definition keys_of (docs : list document) : list string := omap key_of docs.

(** The record carries an embedding vector of dimension [dim]. *)
Definition has_embedding (dim : nat) (doc : document) : Prop :=
  exists v, doc !! "embedding" = Some (VVec v) /\ length v = dim.

(** A well-formed record of dimension [dim]: an embedding vector of that
    dimension and a metadata dictionary with [doc_id] and [chunk_id]. *)
Definition well_formed (dim : nat) (doc : document) : Prop :=
  has_embedding dim doc /\ is_Some (key_of doc).

(** The vector a record was added with. *)
Definition vector_of (doc : document) : option (list Q) :=
  match doc !! "embedding" with
  | Some (VVec v) => Some v
  | _ => None
  end.

(** A sequence of [add_documents] calls, one per batch. *)
Definition add_all (self : SearchEngine) (batches : list (list document)) : SearchEngine :=
  foldl (fun s docs => (add_documents s docs).2) self batches.

(** The position, within [docs], of the last record whose identity key is
    [k]. *)
Fixpoint last_with_key (k : string) (docs : list document) : option nat :=
  match docs with
  | [] => None
  | doc :: docs' =>
      match last_with_key k docs' with
      | Some j => Some (S j)
      | None => if bool_decide (key_of doc = Some k) then Some 0%nat else None
      end
  end.

(** The identity index after the records [docs], numbered from [start],
    have been entered. *)
Definition entered (m : gmap string nat) (start : nat) (docs : list document)
    (m' : gmap string nat) : Prop :=
  forall k, m' !! k =
    match last_with_key k docs with
    | Some j => Some (start + j)%nat
    | None => m !! k
    end.

(** What the loop has done when it ends, either way. *)
Definition loop_outcome (start : nat) (docs : list document) (self : SearchEngine)
    (r : result ()) (self' : SearchEngine) : Prop :=
  index self' = index self /\ embedding_dim self' = embedding_dim self /\
  match r with
  | Ok _ =>
      Forall (fun doc => is_Some (key_of doc)) docs /\
      documents self' = documents self ++ (delete "embedding" <$> docs) /\
      entered (doc_ids_to_indices self) start docs (doc_ids_to_indices self')
  | Raise _ =>
      exists n doc,
        docs !! n = Some doc /\ key_of doc = None /\
        Forall (fun doc => is_Some (key_of doc)) (take n docs) /\
        documents self' =
          documents self ++ (delete "embedding" <$> take (S n) docs) /\
        entered (doc_ids_to_indices self) start (take n docs)
          (doc_ids_to_indices self')
  end.

(** The store holds exactly the records [all], in order: the record list is
    [all] without the embeddings, the vector index holds their vectors at
    the same positions, and the identity index has their keys. *)
Definition holds (dim : nat) (all : list document) (self : SearchEngine) : Prop :=
  d (index self) = dim /\
  documents self = delete "embedding" <$> all /\
  Forall2 (fun doc row => vector_of doc = Some row) all (xb (index self)) /\
  dom (doc_ids_to_indices self) = list_to_set (keys_of all).

(** A hit names a stored vector: a non-negative distance and a label below
    [ntotal]. *)
Definition real_hit (n : nat) (h : Q * Z) : Prop :=
  (0 <= h.1)%Q /\ 0 <= h.2 < Z.of_nat n.

(** The hits the index has for a query before it orders them, with the
    labels counted from [j]; [index_search] takes them from [0]. *)
Definition reported_from (j : nat) (q : list Q) (rows : list (list Q))
    : list (Q * Z) :=
  omap id
    (imap (fun i x => (fun dist => (dist, Z.of_nat (j + i))) <$> fvec_L2sqr q x)
       rows).

(** The hit [h] is the stored vector of its label, at its squared distance
    from the query. *)
Definition measured (ix : IndexFlatL2) (q : list Q) (h : Q * Z) : Prop :=
  exists v, xb ix !! Z.to_nat h.2 = Some v /\ h.1 = sq_dist q v.

(** Every coordinate of [v] is at most [B] in absolute value. *)
Definition bounded (B : Q) (v : list Q) : Prop :=
  Forall (fun c => (- B <= c)%Q /\ (c <= B)%Q) v.

(** ** [__init__] *)

(** [os.path.exists(path)], for the files of the model. *)
Definition path_exists (fs : files) (path : string) : bool :=
  bool_decide (is_Some (fs !! path)).

(** The truth value of an optional path: [None] and the empty string are
    false. *)
Definition truthy (path : option string) : bool :=
  match path with
  | Some p => negb (String.eqb p "")
  | None => false
  end.

(** [SearchEngine(embedding_dim, index_path, docs_path)]: the store is
    loaded when both paths are given and exist, and is new otherwise. A
    constructor that raises gives no object. *)
Definition __init__ (embedding_dim : nat) (index_path docs_path : option string)
    (fs : files) : result SearchEngine :=
  match index_path, docs_path with
  | Some ip, Some dp =>
      if truthy index_path && path_exists fs ip &&
         truthy docs_path && path_exists fs dp
      then
        match load_index (new_engine embedding_dim) ip dp fs with
        | (Ok _, self) => Ok self
        | (Raise e, _) => Raise e
        end
      else Ok (new_engine embedding_dim)
  | _, _ => Ok (new_engine embedding_dim)
  end.

(** ** More that the properties below are stated with *)

(** Does the character occur in the string? *)
Fixpoint mem_char (c : ascii) (s : string) : bool :=
  match s with
  | EmptyString => false
  | String c' s' => bool_decide (c = c') || mem_char c s'
  end.

(** Every entry of the identity index names a stored record that carries
    the entry's key, and no later record carries it. *)
Definition index_sound (self : SearchEngine) : Prop :=
  forall k p,
    doc_ids_to_indices self !! k = Some p ->
    exists rec,
      documents self !! p = Some rec /\ key_of rec = Some k /\
      forall p' rec', (p < p')%nat -> documents self !! p' = Some rec' ->
                      key_of rec' <> Some k.

(** What one iteration of the result loop does to the record list. *)
Definition write_score (docs : list document) (h : Q * Z) : list document :=
  alter (insert "score" (VFloat (1 / (1 + h.1)))) (Z.to_nat h.2) docs.

End Store.

(** * The listing endpoint: [routes.list_documents] *)

Module Routes.
Import Py Store.

#[global] Instance atom_eq_dec : EqDecision atom.
Proof. solve_decision. Defined.

(** An endpoint returns a body or raises [HTTPException(status_code)]. *)
Inductive response (A : Type) :=
| Body (a : A)
| HTTPException (status_code : Z).
Arguments Body {A} a.
Arguments HTTPException {A} status_code.

(** One row of the listing: the dictionary built at lines 168-175. *)
Record row := {
  title : atom;
  file_type : atom;
  source : atom;
  created_at : atom;
  modified_at : atom;
  chunks : Z
}.

(** [unique_docs]: a dictionary keeps its keys in insertion order. *)
Abbreviation unique_docs := (list (atom * row)).

(** [doc_id in unique_docs] *)
Definition contains (u : unique_docs) (doc_id : atom) : bool :=
  bool_decide (doc_id ∈ u.*1).

(** [unique_docs[doc_id]['chunks'] += 1] *)
Definition count_chunk (u : unique_docs) (doc_id : atom) : unique_docs :=
  (fun e : atom * row =>
     if decide (e.1 = doc_id)
     then (e.1, {| title := title e.2; file_type := file_type e.2;
                   source := source e.2; created_at := created_at e.2;
                   modified_at := modified_at e.2;
                   chunks := chunks e.2 + 1 |})
     else e) <$> u.

(** The dictionary of lines 168-175, its values read in this order. *)
Definition new_row (doc : document) : result row :=
  match metadata_get doc "title" with
  | Raise e => Raise e
  | Ok t =>
  match metadata_get doc "file_type" with
  | Raise e => Raise e
  | Ok f =>
  match metadata_get doc "source" with
  | Raise e => Raise e
  | Ok s =>
  match metadata_get doc "created_at" with
  | Raise e => Raise e
  | Ok c =>
  match metadata_get doc "modified_at" with
  | Raise e => Raise e
  | Ok m =>
      Ok {| title := t; file_type := f; source := s; created_at := c;
            modified_at := m; chunks := 0 |}
  end end end end end.

(** The loop of lines 165-176. *)
Fixpoint group_loop (docs : list document) (u : unique_docs) : result unique_docs :=
  match docs with
  | [] => Ok u
  | doc :: docs' =>
      match metadata_get doc "doc_id" with
      | Raise e => Raise e
      | Ok doc_id =>
          if contains u doc_id
          then group_loop docs' (count_chunk u doc_id)
          else
            match new_row doc with
            | Raise e => Raise e
            | Ok r => group_loop docs' (count_chunk (u ++ [(doc_id, r)]) doc_id)
            end
      end
  end.

(** [list_documents(limit, search_engine)]: any exception becomes a
    response with status 500. *)
Definition list_documents (limit : Z) (search_engine : SearchEngine)
    : response (list row) :=
  match group_loop (slice (documents search_engine) 0 limit) [] with
  | Ok u => Body u.*2
  | Raise _ => HTTPException 500
  end.

(** The document ids of the records, for those that have one. *)
Definition doc_ids (docs : list document) : list atom :=
  omap (fun doc => match metadata_get doc "doc_id" with
                   | Ok a => Some a
                   | Raise _ => None
                   end) docs.

(** How many of the ids are [a]. *)
Definition occurrences (a : atom) (ids : list atom) : Z :=
  len (filter (fun b => b = a) ids).

(** The sum of the chunk counts of the rows. *)
Definition total_chunks (rows : list row) : Z :=
  foldr (fun r acc => chunks r + acc) 0 rows.

(** The record has every metadata key the listing reads. *)
Definition listable (doc : document) : Prop :=
  Forall (fun key => exists a, metadata_get doc key = Ok a)
    ["doc_id"; "title"; "file_type"; "source"; "created_at"; "modified_at"].

(** The dictionary [u] groups the ids [seen]: one entry per id, in some
    order, each with the number of times the id was seen. *)
Definition groups (u : unique_docs) (seen : list atom) : Prop :=
  NoDup u.*1 /\
  (forall a, a ∈ u.*1 <-> a ∈ seen) /\
  Forall (fun e => chunks e.2 = occurrences e.1 seen) u.

(** ** [routes.summarize_document] *)

(** [a < b] on metadata values, as [list.sort] compares keys: defined
    between two integers and between two strings (by code point), a
    [TypeError] otherwise. *)
Definition atom_lt (a b : atom) : result bool :=
  match a, b with
  | AInt x, AInt y => Ok (x <? y)
  | AStr x, AStr y => Ok (String.ltb x y)
  | _, _ => Raise TypeError
  end.

(** [x] goes before the first element that is not smaller than it. *)
Fixpoint insert_by_key (x : atom * document) (l : list (atom * document))
    : result (list (atom * document)) :=
  match l with
  | [] => Ok [x]
  | y :: l' =>
      match atom_lt y.1 x.1 with
      | Raise e => Raise e
      | Ok true =>
          match insert_by_key x l' with
          | Ok r => Ok (y :: r)
          | Raise e => Raise e
          end
      | Ok false => Ok (x :: l)
      end
  end.

(** A stable sort by key, with the exception a comparison raises. *)
Fixpoint sort_by_key (l : list (atom * document)) : result (list (atom * document)) :=
  match l with
  | [] => Ok []
  | x :: l' =>
      match sort_by_key l' with
      | Ok sorted => insert_by_key x sorted
      | Raise e => Raise e
      end
  end.

(** [[doc for doc in documents if doc['metadata']['doc_id'] == doc_id]] *)
Fixpoint chunks_of (doc_id : string) (docs : list document) : result (list document) :=
  match docs with
  | [] => Ok []
  | doc :: docs' =>
      match metadata_get doc "doc_id" with
      | Raise e => Raise e
      | Ok a =>
          match chunks_of doc_id docs' with
          | Raise e => Raise e
          | Ok l => Ok (if bool_decide (a = AStr doc_id) then doc :: l else l)
          end
      end
  end.

(** The keys [x['metadata']['chunk_id']], computed before the sort. *)
Fixpoint with_keys (docs : list document) : result (list (atom * document)) :=
  match docs with
  | [] => Ok []
  | doc :: docs' =>
      match metadata_get doc "chunk_id" with
      | Raise e => Raise e
      | Ok k =>
          match with_keys docs' with
          | Raise e => Raise e
          | Ok l => Ok ((k, doc) :: l)
          end
      end
  end.

(** [[chunk['text'] for chunk in chunks]], each of which [join] needs to be
    a string. *)
Fixpoint texts_of (docs : list document) : result (list text) :=
  match docs with
  | [] => Ok []
  | doc :: docs' =>
      match doc !! "text" with
      | None => Raise KeyError
      | Some (VStr t) =>
          match texts_of docs' with
          | Raise e => Raise e
          | Ok l => Ok (list_ascii_of_string t :: l)
          end
      | Some _ => Raise TypeError
      end
  end.

(** [sep.join(parts)] *)
Fixpoint join (sep : text) (parts : list text) : text :=
  match parts with
  | [] => []
  | [p] => p
  | p :: parts' => p ++ sep ++ join sep parts'
  end.

(** The dictionary returned at lines 203-207. *)
Record summary := {
  summary_doc_id : string;
  summary_title : atom;
  summary_text : text
}.

(** [summary_text[:1000] + "..." if len(summary_text) > 1000 else summary_text] *)
Definition shorten (summary_text : text) : text :=
  if 1000 <? len summary_text
  then slice summary_text 0 1000 ++ list_ascii_of_string "..."
  else summary_text.

(** The body of the [try]; [None] stands for the [HTTPException] with
    status 404 raised at line 195. *)
Definition summarize_body (doc_id : string) (docs : list document)
    : result (option summary) :=
  match chunks_of doc_id docs with
  | Raise e => Raise e
  | Ok [] => Ok None
  | Ok doc_chunks =>
      match with_keys doc_chunks with
      | Raise e => Raise e
      | Ok keyed =>
          match sort_by_key keyed with
          | Raise e => Raise e
          | Ok sorted =>
              let doc_chunks := sorted.*2 in
              match texts_of (slice doc_chunks 0 3) with
              | Raise e => Raise e
              | Ok texts =>
                  let summary_text := join [Chunker.LF; Chunker.LF] texts in
                  match doc_chunks with
                  | [] => Raise IndexError
                  | first :: _ =>
                      match metadata_get first "title" with
                      | Raise e => Raise e
                      | Ok t =>
                          Ok (Some {| summary_doc_id := doc_id;
                                      summary_title := t;
                                      summary_text := shorten summary_text |})
                      end
                  end
              end
          end
      end
  end.

(** [summarize_document(doc_id, search_engine)]: the 404 is passed on, any
    other exception becomes a 500. *)
Definition summarize_document (doc_id : string) (search_engine : SearchEngine)
    : response summary :=
  match summarize_body doc_id (documents search_engine) with
  | Ok (Some r) => Body r
  | Ok None => HTTPException 404
  | Raise _ => HTTPException 500
  end.

End Routes.

(** * Facts about Python's primitives *)

Module PyFacts.
Import Py.

Lemma adjust_bounds (n i : Z) : 0 <= n -> 0 <= adjust n i <= n.
Proof. unfold adjust. destruct (Z.ltb_spec i 0); lia. Qed.

Lemma adjust_in_range (n i : Z) : 0 <= i <= n -> adjust n i = i.
Proof. unfold adjust. destruct (Z.ltb_spec i 0); lia. Qed.

Lemma len_nonneg {A} (l : list A) : 0 <= len l.
Proof. unfold len. lia. Qed.

Lemma rfind_from_spec (s sub : text) (lo : Z) (n : nat) :
  0 <= lo ->
  let r := rfind_from s sub lo n in
  (r = -1 /\
   forall q, lo <= q < lo + Z.of_nat n -> match_at s sub (Z.to_nat q) = false)
  \/
  (lo <= r < lo + Z.of_nat n /\ match_at s sub (Z.to_nat r) = true /\
   forall q, lo <= q < lo + Z.of_nat n ->
             match_at s sub (Z.to_nat q) = true -> q <= r).
Proof.
  intros Hlo. induction n as [|n IH]; simpl.
  - left. split; [reflexivity | intros q Hq; lia].
  - destruct (match_at s sub (Z.to_nat (lo + Z.of_nat n))) eqn:Hm.
    + right. split; [lia|]. split; [exact Hm | intros q Hq _; lia].
    + destruct IH as [[Hr Hnone] | (Hr & Hmr & Hmax)].
      * left. split; [exact Hr|]. intros q Hq.
        destruct (decide (q = lo + Z.of_nat n)) as [->|Hne]; [exact Hm|].
        apply Hnone. lia.
      * right. split; [lia|]. split; [exact Hmr|]. intros q Hq Hmq.
        destruct (decide (q = lo + Z.of_nat n)) as [->|Hne]; [congruence|].
        apply Hmax; [lia | exact Hmq].
Qed.

(** [rfind] returns [-1] exactly when there is no occurrence in the window,
    and the last occurrence otherwise. *)
Lemma rfind_spec (s sub : text) (i j : Z) :
  let lo := adjust (len s) i in
  let hi := adjust (len s) j in
  let r := rfind s sub i j in
  (r = -1 /\ absent_within s sub lo hi) \/
  (r <> -1 /\ last_within s sub lo hi r).
Proof.
  intros lo hi r.
  pose proof (adjust_bounds (len s) i (len_nonneg s)) as Hlo.
  pose proof (adjust_bounds (len s) j (len_nonneg s)) as Hhi.
  fold lo in Hlo. fold hi in Hhi.
  pose proof (len_nonneg sub) as Hsub.
  destruct (rfind_from_spec s sub lo (Z.to_nat (hi - len sub - lo + 1))
              (proj1 Hlo)) as [[Hr Hnone] | (Hr & Hmr & Hmax)];
    fold lo hi in Hr; change (rfind_from s sub lo _) with r in *.
  - left. split; [exact Hr|]. intros q [Hq0 Hq] Hq1 Hq2.
    rewrite Hnone in Hq; [discriminate | lia].
  - right. split; [lia|]. unfold last_within, occurs.
    split; [split; [lia | exact Hmr]|]. split; [lia|]. split; [lia|].
    intros q [Hq0 Hq] Hq1 Hq2. apply Hmax; [lia | exact Hq].
Qed.

Lemma last_within_unique (s sub : text) (lo hi p q : Z) :
  last_within s sub lo hi p -> last_within s sub lo hi q -> p = q.
Proof.
  intros (Hp & Hp1 & Hp2 & Hpmax) (Hq & Hq1 & Hq2 & Hqmax).
  specialize (Hpmax q Hq Hq1 Hq2). specialize (Hqmax p Hp Hp1 Hp2). lia.
Qed.

(** *** [strip] *)

Lemma lstrip_split (s : text) :
  exists p, s = p ++ lstrip s /\ forallb is_space p = true.
Proof.
  induction s as [|c s [p [Hs Hp]]]; simpl.
  - exists []. split; reflexivity.
  - destruct (is_space c) eqn:Hc.
    + exists (c :: p). simpl. rewrite Hc, Hp. split; [f_equal; exact Hs | reflexivity].
    + exists []. split; reflexivity.
Qed.



Lemma forallb_rev {A} (f : A -> bool) (l : list A) :
  forallb f (rev l) = forallb f l.
Proof.
  induction l as [|a l IH]; simpl; [reflexivity|].
  rewrite forallb_app, IH. simpl. destruct (f a), (forallb f l); reflexivity.
Qed.

Lemma rstrip_split (s : text) :
  exists q, s = rstrip s ++ q /\ forallb is_space q = true.
Proof.
  unfold rstrip. destruct (lstrip_split (rev s)) as [p [Hs Hp]].
  exists (rev p). split.
  - rewrite <- rev_app_distr, <- Hs, rev_involutive. reflexivity.
  - rewrite forallb_rev. exact Hp.
Qed.







End PyFacts.

(** * The chunker, verified *)

Module ChunkerFacts.
Import Py PyFacts Chunker.

Example ex_short :
  _chunk_text {| chunk_size := 5; chunk_overlap := 0 |} (T "abc") 3 = Some [T "abc"].
Proof. reflexivity. Qed.

Example ex_long0 :
  _chunk_text {| chunk_size := 2; chunk_overlap := 0 |} (T "abcdef") 9 = Some [T "ab"].
Proof. reflexivity. Qed.

Example ex_loop :
  chunk_run {| chunk_size := 1000; chunk_overlap := 200 |} (T "abc") 4 =
  Running (-197) [T "abc"; T "abc"; T "abc"; T "abc"].
Proof. reflexivity. Qed.

(** ** Bounds on the chunk end *)

Lemma rfind_le (s sub : text) (i j : Z) :
  rfind s sub i j <> -1 -> rfind s sub i j + len sub <= len s.
Proof.
  intros Hr. destruct (rfind_spec s sub i j) as [[H _] | [_ H]]; [congruence|].
  destruct H as (_ & _ & Hhi & _).
  pose proof (adjust_bounds (len s) j (len_nonneg s)). lia.
Qed.

Lemma found_past (r m : Z) :
  negb (r =? -1) && (m <? r) = true -> r <> -1 /\ m < r.
Proof.
  intros H. apply andb_true_iff in H as [H1 H2].
  apply negb_true_iff, Z.eqb_neq in H1. apply Z.ltb_lt in H2. tauto.
Qed.

Lemma chunk_end_le (self : DocumentProcessor) (txt : text) (start : Z) :
  chunk_end self txt start <= len txt.
Proof.
  unfold chunk_end.
  destruct (Z.ltb_spec (Z.min (start + chunk_size self) (len txt)) (len txt));
    [|lia].
  repeat match goal with
  | |- context [if ?b then _ else _] =>
      let Hb := fresh "Hb" in
      destruct b eqn:Hb;
      [apply found_past in Hb as [Hb _]; apply rfind_le in Hb;
       unfold paragraph_delim, line_delim, sentence_delim, space_delim, len in *;
       simpl in *; lia|]
  end.
  lia.
Qed.

(** ** The loop guard *)

(** With a positive overlap the guard [start >= end] of line 201 is never
    true and [start] stays below the text length: the loop keeps running. *)
Lemma chunk_loop_running (self : DocumentProcessor) (txt : text) (fuel : nat) :
  0 < chunk_overlap self ->
  forall start chunks, start < len txt ->
    exists start' chunks',
      chunk_loop self txt fuel start chunks = Running start' chunks'.
Proof.
  intros Hov. induction fuel as [|fuel IH]; intros start chunks Hst; simpl.
  - eauto.
  - destruct (Z.ltb_spec start (len txt)); [|lia].
    pose proof (chunk_end_le self txt start) as He.
    destruct (Z.leb_spec (chunk_end self txt start)
                (chunk_end self txt start - chunk_overlap self)); [lia|].
    apply IH. lia.
Qed.

(** C1 (the code does not do what the claim says): for a non-empty text and
    a positive overlap, [_chunk_text] does not return, whatever the number
    of iterations it is given. The guard of line 201 compares the new
    [start = end - overlap] with the [end] it was computed from, so it fires
    only when the overlap is not positive. *)
Theorem chunk_text_never_returns (self : DocumentProcessor) (txt : text)
    (fuel : nat) :
  txt <> [] ->
  0 < chunk_size self ->
  0 < chunk_overlap self < chunk_size self ->
  _chunk_text self txt fuel = None.
Proof.
  intros Hne _ [Hov _]. unfold _chunk_text, chunk_run.
  destruct txt as [|c txt]; [congruence|].
  destruct (chunk_loop_running self (c :: txt) fuel Hov 0 [])
    as (st & ch & ->); [unfold len; simpl; lia | reflexivity].
Qed.

Lemma chunk_text_never_returns_witness :
  let self := {| chunk_size := 1000; chunk_overlap := 200 |} in
  T "abc" <> [] /\ 0 < chunk_size self /\
  0 < chunk_overlap self < chunk_size self /\
  _chunk_text self (T "abc") 50 = None.
Proof.
  simpl. split; [discriminate|]. split; [lia|]. split; [lia|].
  apply chunk_text_never_returns; simpl; [discriminate | lia | lia].
Defined.

(** With overlap [0] the same guard fires at the end of the first
    iteration. *)
Lemma chunk_text_zero_overlap (self : DocumentProcessor) (txt : text)
    (fuel : nat) :
  txt <> [] ->
  chunk_overlap self = 0 ->
  _chunk_text self txt (S fuel) =
  Some [strip (slice txt 0 (chunk_end self txt 0))].
Proof.
  intros Hne Hov. unfold _chunk_text, chunk_run.
  destruct txt as [|c txt]; [congruence|].
  simpl chunk_loop.
  destruct (Z.ltb_spec 0 (len (c :: txt))); [|unfold len in *; simpl in *; lia].
  rewrite Hov, Z.sub_0_r, Z.leb_refl. reflexivity.
Qed.

(** C2 (the code does not do what the claim says): with overlap [0] the
    call returns after its first chunk, so a text longer than one chunk is
    not reconstructed from the chunks; here the text has no whitespace and
    nothing is trimmed. *)
Theorem chunk_text_loses_text :
  let self := {| chunk_size := 2; chunk_overlap := 0 |} in
  no_whitespace (T "abcdef") = true /\
  _chunk_text self (T "abcdef") 10 = Some [T "ab"] /\
  reconstruct (chunk_overlap self) [T "ab"] <> T "abcdef".
Proof. repeat split. discriminate. Qed.

(** ** The breaking point *)

Section BreakingPoint.
Variable self : DocumentProcessor.
Variable txt : text.
Variable start : Z.
Hypothesis not_at_end : start + chunk_size self < len txt.

Lemma candidate_end : Z.min (start + chunk_size self) (len txt) = start + chunk_size self.
Proof. lia. Qed.

Lemma break_at_unique (sub : text) (p q : Z) :
  break_at self txt start sub p -> break_at self txt start sub q -> p = q.
Proof. intros [Hp _] [Hq _]. eapply last_within_unique; eassumption. Qed.

Lemma break_at_no_break (sub : text) (p : Z) :
  break_at self txt start sub p -> no_break self txt start sub -> False.
Proof.
  intros [(Hocc & Hlo & Hhi & _) Hmid] Hno.
  specialize (Hno p Hocc Hlo Hhi). lia.
Qed.

(** The test made on each delimiter at lines 179, 184, 189 and 194. *)
Lemma break_test (sub : text) :
  let r := rfind txt sub start (start + chunk_size self) in
  (negb (r =? -1) && (midpoint self start <? r) = true /\
   break_at self txt start sub r) \/
  (negb (r =? -1) && (midpoint self start <? r) = false /\
   no_break self txt start sub).
Proof.
  intros r.
  destruct (rfind_spec txt sub start (start + chunk_size self))
    as [[Hr Habs] | [Hr Hlast]]; fold r in Hr.
  - right. split.
    + rewrite Hr. reflexivity.
    + intros q Hq Hlo Hhi. exfalso. exact (Habs q Hq Hlo Hhi).
  - fold r in Hlast. destruct (Z.ltb_spec (midpoint self start) r) as [Hm|Hm].
    + left. split.
      * apply Z.eqb_neq in Hr. rewrite Hr. reflexivity.
      * split; assumption.
    + right. split.
      * apply andb_false_r.
      * intros q Hq Hlo Hhi. destruct Hlast as (_ & _ & _ & Hmax).
        specialize (Hmax q Hq Hlo Hhi). lia.
Qed.

End BreakingPoint.

(** C8, as amended: in a step whose candidate end [start + chunk_size] is
    not the text end, the chunk ends just past the last occurrence inside
    [text[start:start + chunk_size]] of the first of the delimiters
    paragraph break (two newlines), line break (newline), period followed
    by a space, space, that has an occurrence there strictly past
    [start + chunk_size // 2]; when none has, the chunk ends at
    [start + chunk_size]. *)
Theorem chunk_end_breaking_point (self : DocumentProcessor) (txt : text)
    (start : Z) :
  start + chunk_size self < len txt ->
  (forall p, break_at self txt start paragraph_delim p ->
     chunk_end self txt start = p + 2) /\
  (no_break self txt start paragraph_delim ->
   forall p, break_at self txt start line_delim p ->
     chunk_end self txt start = p + 1) /\
  (no_break self txt start paragraph_delim ->
   no_break self txt start line_delim ->
   forall p, break_at self txt start sentence_delim p ->
     chunk_end self txt start = p + 2) /\
  (no_break self txt start paragraph_delim ->
   no_break self txt start line_delim ->
   no_break self txt start sentence_delim ->
   forall p, break_at self txt start space_delim p ->
     chunk_end self txt start = p + 1) /\
  (no_break self txt start paragraph_delim ->
   no_break self txt start line_delim ->
   no_break self txt start sentence_delim ->
   no_break self txt start space_delim ->
   chunk_end self txt start = start + chunk_size self).
Proof.
  intros Hend. unfold chunk_end.
  rewrite (candidate_end self txt start Hend).
  destruct (Z.ltb_spec (start + chunk_size self) (len txt)); [|lia].
  fold (midpoint self start).
  destruct (break_test self txt start paragraph_delim) as [[-> B1] | [-> N1]];
  [|destruct (break_test self txt start line_delim) as [[-> B2] | [-> N2]];
    [|destruct (break_test self txt start sentence_delim) as [[-> B3] | [-> N3]];
      [|destruct (break_test self txt start space_delim) as [[-> B4] | [-> N4]]]]];
  repeat split; intros;
  repeat match goal with
  | B : break_at _ _ _ ?d _, N : no_break _ _ _ ?d |- _ =>
      exfalso; exact (break_at_no_break _ _ _ _ _ B N)
  | B : break_at _ _ _ ?d ?p, B' : break_at _ _ _ ?d ?q |- _ =>
      rewrite (break_at_unique _ _ _ _ _ _ B' B); reflexivity
  end; try reflexivity.
Qed.

Ltac settle_break d :=
  match goal with
  | |- break_at ?self ?txt ?start d _ =>
      destruct (break_test self txt start d) as [[_ B] | [B _]];
      [exact B | vm_compute in B; discriminate B]
  | |- no_break ?self ?txt ?start d =>
      destruct (break_test self txt start d) as [[B _] | [_ B]];
      [vm_compute in B; discriminate B | exact B]
  end.

Lemma chunk_end_breaking_point_witness :
  let self := {| chunk_size := 10; chunk_overlap := 2 |} in
  let txt := T "aaaaaaa bbbbbbbbb" in
  0 + chunk_size self < len txt /\
  no_break self txt 0 paragraph_delim /\
  no_break self txt 0 line_delim /\
  no_break self txt 0 sentence_delim /\
  break_at self txt 0 space_delim 7 /\
  chunk_end self txt 0 = 7 + 1.
Proof.
  intros self txt.
  assert (Hend : 0 + chunk_size self < len txt) by (vm_compute; reflexivity).
  assert (N1 : no_break self txt 0 paragraph_delim) by settle_break paragraph_delim.
  assert (N2 : no_break self txt 0 line_delim) by settle_break line_delim.
  assert (N3 : no_break self txt 0 sentence_delim) by settle_break sentence_delim.
  assert (B4 : break_at self txt 0 space_delim 7) by settle_break space_delim.
  repeat (split; [assumption|]).
  exact (proj1 (proj2 (proj2 (proj2 (chunk_end_breaking_point self txt 0 Hend))))
           N1 N2 N3 7 B4).
Defined.

(** C8, as stated, fails: a period followed by a tab, or an exclamation
    mark followed by a space, is a sentence terminator followed by
    whitespace, and the code does not end the chunk there. *)
Lemma chunk_end_sentence_counterexample :
  let tab := "009"%char in
  let txt1 := T "aaaaaaa." ++ [tab] ++ T "bbbbbbb" in
  let txt2 := T "aaaaaaa! bb cccc" in
  (0 + 10 < len txt1 /\
   chunk_end {| chunk_size := 10; chunk_overlap := 2 |} txt1 0 = 10 /\
   spec_chunk_end 10 txt1 0 = 9) /\
  (0 + 13 < len txt2 /\
   chunk_end {| chunk_size := 13; chunk_overlap := 2 |} txt2 0 = 12 /\
   spec_chunk_end 13 txt2 0 = 9).
Proof. vm_compute. repeat split; reflexivity. Qed.

(** ** Emitted chunks *)






(** ** When the call returns *)

Lemma chunk_loop_guard (self : DocumentProcessor) (txt : text) (fuel : nat)
    (start : Z) (chunks : list text) :
  chunk_overlap self <= 0 -> start < len txt ->
  chunk_loop self txt (S fuel) start chunks =
  Returned (chunks ++ [strip (slice txt start (chunk_end self txt start))]).
Proof.
  intros Hov Hst. simpl.
  destruct (Z.ltb_spec start (len txt)); [|lia].
  destruct (Z.leb_spec (chunk_end self txt start)
              (chunk_end self txt start - chunk_overlap self)); [reflexivity | lia].
Qed.

(** X1: The call returns exactly when the text is empty or the overlap is not
    positive: the guard of line 201 is [chunk_overlap <= 0]. *)
Theorem chunk_text_returns_iff (self : DocumentProcessor) (txt : text) :
  (exists fuel chunks, _chunk_text self txt fuel = Some chunks) <->
  (txt = [] \/ chunk_overlap self <= 0).
Proof.
  split.
  - intros (fuel & chunks & Hrun).
    destruct txt as [|c txt]; [left; reflexivity|]. right.
    destruct (Z.leb_spec (chunk_overlap self) 0) as [H|H]; [exact H|].
    exfalso. unfold _chunk_text, chunk_run in Hrun.
    destruct (chunk_loop_running self (c :: txt) fuel H 0 [])
      as (st & ch & Hloop); [unfold len; simpl; lia|].
    rewrite Hloop in Hrun. discriminate.
  - intros [-> | Hov].
    + exists 0%nat, []. reflexivity.
    + destruct txt as [|c txt]; [exists 0%nat, []; reflexivity|].
      exists 1%nat. eexists. unfold _chunk_text, chunk_run.
      rewrite chunk_loop_guard; [reflexivity | exact Hov | unfold len; simpl; lia].
Qed.

(** With an overlap that is not positive, a non-empty text gives exactly
    one chunk, whatever its length: the first slice, trimmed. *)
Theorem chunk_text_single_chunk (self : DocumentProcessor) (txt : text)
    (fuel : nat) :
  txt <> [] ->
  chunk_overlap self <= 0 ->
  _chunk_text self txt (S fuel) =
  Some [strip (slice txt 0 (chunk_end self txt 0))].
Proof.
  intros Hne Hov. unfold _chunk_text, chunk_run.
  destruct txt as [|c txt]; [congruence|].
  rewrite chunk_loop_guard; [reflexivity | exact Hov | unfold len; simpl; lia].
Qed.

Lemma chunk_text_single_chunk_witness :
  let self := {| chunk_size := 4; chunk_overlap := -1 |} in
  T "abcdefghij" <> [] /\ chunk_overlap self <= 0 /\
  _chunk_text self (T "abcdefghij") 3 = Some [T "abcd"].
Proof.
  intros self.
  assert (Hne : T "abcdefghij" <> []) by discriminate.
  assert (Hov : chunk_overlap self <= 0) by (simpl; lia).
  split; [exact Hne|]. split; [exact Hov|].
  exact (chunk_text_single_chunk self (T "abcdefghij") 2 Hne Hov).
Defined.

Lemma slice_all {A} (l : list A) : slice l 0 (len l) = l.
Proof.
  unfold slice. rewrite !adjust_in_range by (pose proof (len_nonneg l); lia).
  rewrite Z.sub_0_r. unfold len. rewrite Nat2Z.id. simpl. apply firstn_all.
Qed.

(** X3: A text no longer than [chunk_size], chunked with overlap [0] (or a
    negative one), gives the whole text, trimmed, as its only chunk. *)
Theorem chunk_text_short (self : DocumentProcessor) (txt : text) (fuel : nat) :
  txt <> [] ->
  chunk_overlap self <= 0 ->
  len txt <= chunk_size self ->
  _chunk_text self txt (S fuel) = Some [strip txt].
Proof.
  intros Hne Hov Hlen. unfold _chunk_text, chunk_run.
  destruct txt as [|c txt]; [congruence|].
  rewrite chunk_loop_guard; [|exact Hov | unfold len; simpl; lia].
  assert (Hend : chunk_end self (c :: txt) 0 = len (c :: txt)).
  { unfold chunk_end.
    destruct (Z.ltb_spec (Z.min (0 + chunk_size self) (len (c :: txt)))
                (len (c :: txt))); lia. }
  rewrite Hend, slice_all. reflexivity.
Qed.

Lemma chunk_text_short_witness :
  let self := {| chunk_size := 1000; chunk_overlap := 0 |} in
  T "  hello world " <> [] /\ chunk_overlap self <= 0 /\
  len (T "  hello world ") <= chunk_size self /\
  _chunk_text self (T "  hello world ") 1 = Some [T "hello world"].
Proof.
  intros self.
  assert (Hne : T "  hello world " <> []) by discriminate.
  assert (Hov : chunk_overlap self <= 0) by (simpl; lia).
  assert (Hlen : len (T "  hello world ") <= chunk_size self)
    by (vm_compute; discriminate).
  split; [exact Hne|]. split; [exact Hov|]. split; [exact Hlen|].
  exact (chunk_text_short self (T "  hello world ") 0 Hne Hov Hlen).
Defined.

(** ** A run that does not return *)

Lemma chunk_loop_count (self : DocumentProcessor) (txt : text) (fuel : nat) :
  0 < chunk_overlap self ->
  forall start chunks, start < len txt ->
    length (emitted (chunk_loop self txt fuel start chunks)) =
    (length chunks + fuel)%nat.
Proof.
  intros Hov. induction fuel as [|fuel IH]; intros start chunks Hst; simpl.
  - lia.
  - destruct (Z.ltb_spec start (len txt)); [|lia].
    pose proof (chunk_end_le self txt start) as He.
    destruct (Z.leb_spec (chunk_end self txt start)
                (chunk_end self txt start - chunk_overlap self)); [lia|].
    rewrite IH by lia. rewrite length_app. simpl. lia.
Qed.

(** X4: With a positive overlap every iteration appends one more chunk to the
    list: after [n] iterations on a non-empty text the list holds [n]
    chunks, so the call uses memory without bound. *)
Theorem chunk_text_grows (self : DocumentProcessor) (txt : text) (n : nat) :
  txt <> [] ->
  0 < chunk_overlap self ->
  length (emitted (chunk_run self txt n)) = n.
Proof.
  intros Hne Hov. unfold chunk_run. destruct txt as [|c txt]; [congruence|].
  rewrite chunk_loop_count; [reflexivity | exact Hov | unfold len; simpl; lia].
Qed.

Lemma chunk_text_grows_witness :
  let self := {| chunk_size := 1000; chunk_overlap := 200 |} in
  T "abc" <> [] /\ 0 < chunk_overlap self /\
  length (emitted (chunk_run self (T "abc") 25)) = 25%nat.
Proof.
  intros self.
  assert (Hne : T "abc" <> []) by discriminate.
  assert (Hov : 0 < chunk_overlap self) by (simpl; lia).
  split; [exact Hne|]. split; [exact Hov|].
  exact (chunk_text_grows self (T "abc") 25 Hne Hov).
Defined.

(** ** The size of a chunk *)

Lemma len_paragraph : len paragraph_delim = 2.
Proof. reflexivity. Qed.

Lemma len_line : len line_delim = 1.
Proof. reflexivity. Qed.

Lemma len_sentence : len sentence_delim = 2.
Proof. reflexivity. Qed.

Lemma len_space : len space_delim = 1.
Proof. reflexivity. Qed.

Lemma rfind_window (s sub : text) (i j : Z) :
  rfind s sub i j <> -1 ->
  adjust (len s) i <= rfind s sub i j /\
  rfind s sub i j + len sub <= adjust (len s) j.
Proof.
  intros Hr. destruct (rfind_spec s sub i j) as [[H _] | [_ H]]; [congruence|].
  destruct H as (_ & Hlo & Hhi & _). split; assumption.
Qed.

Lemma adjust_step (n a size : Z) :
  0 <= n -> 0 <= size -> adjust n (a + size) - adjust n a <= size.
Proof.
  intros Hn Hs. unfold adjust.
  destruct (Z.ltb_spec (a + size) 0), (Z.ltb_spec a 0); lia.
Qed.

(** The slice of a step ends within the window [text[start:start + size]]. *)
Lemma chunk_end_window (self : DocumentProcessor) (txt : text) (start : Z) :
  0 <= chunk_size self ->
  adjust (len txt) (chunk_end self txt start) <=
  adjust (len txt) (start + chunk_size self).
Proof.
  intros Hsize. pose proof (len_nonneg txt) as Hlen. unfold chunk_end.
  destruct (Z.ltb_spec (Z.min (start + chunk_size self) (len txt)) (len txt))
    as [Hlt|Hge].
  - replace (Z.min (start + chunk_size self) (len txt))
      with (start + chunk_size self) by lia.
    pose proof (adjust_bounds (len txt) start Hlen) as Hlo.
    pose proof (adjust_bounds (len txt) (start + chunk_size self) Hlen) as Hhi.
    repeat match goal with
    | |- context [if ?b then _ else _] =>
        let Hb := fresh "Hb" in
        destruct b eqn:Hb;
        [apply found_past in Hb as [Hb _]; apply rfind_window in Hb;
         rewrite ?len_paragraph, ?len_line, ?len_sentence, ?len_space in Hb;
         rewrite adjust_in_range; lia|]
    end.
    lia.
  - replace (Z.min (start + chunk_size self) (len txt)) with (len txt) by lia.
    unfold adjust.
    destruct (Z.ltb_spec (len txt) 0), (Z.ltb_spec (start + chunk_size self) 0); lia.
Qed.

Lemma slice_length {A} (l : list A) (i j : Z) :
  Z.of_nat (length (slice l i j)) <= Z.max 0 (adjust (len l) j - adjust (len l) i).
Proof.
  unfold slice. rewrite length_take. lia.
Qed.

Lemma lstrip_length (s : text) : (length (lstrip s) <= length s)%nat.
Proof.
  destruct (lstrip_split s) as [p [Hs _]].
  rewrite Hs at 2. rewrite length_app. lia.
Qed.

Lemma strip_length (s : text) : (length (strip s) <= length s)%nat.
Proof.
  unfold strip. destruct (rstrip_split (lstrip s)) as [q [Hs _]].
  pose proof (lstrip_length s) as Hl. rewrite Hs in Hl.
  rewrite length_app in Hl. lia.
Qed.

Lemma chunk_loop_bounded (self : DocumentProcessor) (txt : text) (fuel : nat) :
  0 <= chunk_size self ->
  forall start chunks,
    Forall (fun c => len c <= chunk_size self) chunks ->
    Forall (fun c => len c <= chunk_size self)
      (emitted (chunk_loop self txt fuel start chunks)).
Proof.
  intros Hsize. induction fuel as [|fuel IH]; intros start chunks Hch; simpl;
    [exact Hch|].
  destruct (start <? len txt); [|exact Hch].
  assert (Hch' : Forall (fun c => len c <= chunk_size self)
                   (chunks ++ [strip (slice txt start (chunk_end self txt start))])).
  { apply Forall_app. split; [exact Hch|].
    apply Forall_cons. split; [|apply Forall_nil_2].
    pose proof (strip_length (slice txt start (chunk_end self txt start))) as H1.
    pose proof (slice_length txt start (chunk_end self txt start)) as H2.
    pose proof (chunk_end_window self txt start Hsize) as H3.
    pose proof (adjust_step (len txt) start (chunk_size self) (len_nonneg txt) Hsize).
    unfold len in *. lia. }
  destruct (_ <=? _); [exact Hch' | apply IH; exact Hch'].
Qed.

(** X5: No chunk is longer than [chunk_size]: every chunk appended, at any
    point of a run and from any [start] the loop reaches, has at most
    [chunk_size] characters. *)
Theorem emitted_chunk_size (self : DocumentProcessor) (txt : text)
    (fuel : nat) (c : text) :
  0 <= chunk_size self ->
  c ∈ emitted (chunk_run self txt fuel) ->
  len c <= chunk_size self.
Proof.
  intros Hsize Hc.
  assert (H : Forall (fun c => len c <= chunk_size self)
                (emitted (chunk_run self txt fuel))).
  { unfold chunk_run. destruct txt; [apply Forall_nil_2|].
    apply chunk_loop_bounded; [exact Hsize | apply Forall_nil_2]. }
  rewrite Forall_forall in H. exact (H c Hc).
Qed.

Lemma emitted_chunk_size_witness :
  let self := {| chunk_size := 6; chunk_overlap := 5 |} in
  let txt := T "ab cd ef gh ij kl" in
  0 <= chunk_size self /\
  T "ab cd" ∈ emitted (chunk_run self txt 4) /\
  len (T "ab cd") <= chunk_size self.
Proof.
  intros self txt.
  assert (Hsize : 0 <= chunk_size self) by (simpl; lia).
  assert (Hin : T "ab cd" ∈ emitted (chunk_run self txt 4)).
  { vm_compute. apply list_elem_of_In. left. reflexivity. }
  split; [exact Hsize|]. split; [exact Hin|].
  exact (emitted_chunk_size self txt 4 (T "ab cd") Hsize Hin).
Defined.

(** X6: In a step that starts inside the text and does not reach the text end,
    the slice ends strictly past [start + chunk_size // 2] and at most at
    [start + chunk_size]: a breaking point never shortens a chunk to half
    the chunk size or less, and never lengthens it. *)
Theorem chunk_end_range (self : DocumentProcessor) (txt : text) (start : Z) :
  0 <= start ->
  0 < chunk_size self ->
  start + chunk_size self < len txt ->
  start + chunk_size self / 2 < chunk_end self txt start <=
  start + chunk_size self.
Proof.
  intros Hstart Hsize Hend.
  assert (Hhalf : chunk_size self / 2 < chunk_size self)
    by (apply Z.div_lt; lia).
  unfold chunk_end.
  replace (Z.min (start + chunk_size self) (len txt))
    with (start + chunk_size self) by lia.
  destruct (Z.ltb_spec (start + chunk_size self) (len txt)); [|lia].
  repeat match goal with
  | |- context [if ?b then _ else _] =>
      let Hb := fresh "Hb" in
      destruct b eqn:Hb;
      [apply found_past in Hb as [Hb Hmid]; apply rfind_window in Hb;
       rewrite (adjust_in_range (len txt) (start + chunk_size self)) in Hb by lia;
       rewrite ?len_paragraph, ?len_line, ?len_sentence, ?len_space in Hb;
       lia|]
  end.
  lia.
Qed.

Lemma chunk_end_range_witness :
  let self := {| chunk_size := 10; chunk_overlap := 2 |} in
  let txt := T "aaaaaaa bbbbbbbbb" in
  0 <= 0 /\ 0 < chunk_size self /\ 0 + chunk_size self < len txt /\
  0 + chunk_size self / 2 < chunk_end self txt 0 <= 0 + chunk_size self.
Proof.
  intros self txt.
  assert (H0 : 0 <= 0) by lia.
  assert (Hsize : 0 < chunk_size self) by (simpl; lia).
  assert (Hend : 0 + chunk_size self < len txt) by (vm_compute; reflexivity).
  split; [exact H0|]. split; [exact Hsize|]. split; [exact Hend|].
  exact (chunk_end_range self txt 0 H0 Hsize Hend).
Defined.

(** X2: The call never returns more than one chunk: what it returns is the
    empty list for an empty text, and otherwise the first slice, trimmed,
    alone, whatever the length of the text; and then the overlap is not
    positive. *)
Theorem chunk_text_at_most_one (self : DocumentProcessor) (txt : text)
    (fuel : nat) (chunks : list text) :
  _chunk_text self txt fuel = Some chunks ->
  (txt = [] /\ chunks = []) \/
  (txt <> [] /\ chunk_overlap self <= 0 /\
   chunks = [strip (slice txt 0 (chunk_end self txt 0))]).
Proof.
  intros Hrun. destruct txt as [|c txt].
  - left. split; [reflexivity|].
    unfold _chunk_text, chunk_run in Hrun. congruence.
  - right. split; [discriminate|].
    assert (Hst : 0 < len (c :: txt)) by (unfold len; simpl; lia).
    destruct (Z.leb_spec (chunk_overlap self) 0) as [Hov|Hov].
    + split; [exact Hov|]. unfold _chunk_text, chunk_run in Hrun.
      destruct fuel as [|fuel]; [discriminate|].
      rewrite (chunk_loop_guard self (c :: txt) fuel 0 [] Hov Hst) in Hrun.
      injection Hrun as <-. reflexivity.
    + exfalso. unfold _chunk_text, chunk_run in Hrun.
      destruct (chunk_loop_running self (c :: txt) fuel Hov 0 [] Hst)
        as (st & ch & Hloop).
      rewrite Hloop in Hrun. discriminate.
Qed.

Lemma chunk_text_at_most_one_witness :
  let self := {| chunk_size := 4; chunk_overlap := 0 |} in
  let txt := T "abcdefghijklmnop" in
  _chunk_text self txt 7 = Some [T "abcd"] /\
  ((txt = [] /\ [T "abcd"] = []) \/
   (txt <> [] /\ chunk_overlap self <= 0 /\
    [T "abcd"] = [strip (slice txt 0 (chunk_end self txt 0))])).
Proof.
  intros self txt.
  assert (Hrun : _chunk_text self txt 7 = Some [T "abcd"]) by reflexivity.
  split; [exact Hrun|].
  exact (chunk_text_at_most_one self txt 7 [T "abcd"] Hrun).
Defined.

End ChunkerFacts.

(** * The store, verified *)

Module StoreFacts.
Import Py Store.

(** ** The prelude of [add_documents]: lines 43-47 *)

Lemma embeddings_of_ok (docs : list document) (vs : list value) :
  embeddings_of docs = Ok vs <->
  Forall2 (fun doc v => doc !! "embedding" = Some v) docs vs.
Proof.
  revert vs. induction docs as [|doc docs IH]; intros vs; simpl.
  - split.
    + intros [= <-]. constructor.
    + intros H. inversion H. reflexivity.
  - destruct (doc !! "embedding") as [v|] eqn:Hv.
    + destruct (embeddings_of docs) as [vs'|e] eqn:Hvs.
      * split.
        -- intros [= <-]. constructor; [exact Hv | apply IH; reflexivity].
        -- intros H. inversion H as [|? v' ? vs'' Hv' Hrest]; subst.
           rewrite Hv in Hv'. injection Hv' as <-.
           apply IH in Hrest. injection Hrest as <-. reflexivity.
      * split; [discriminate|].
        intros H. inversion H as [|? v' ? vs'' Hv' Hrest]; subst.
        apply IH in Hrest. discriminate.
    + split; [discriminate|].
      intros H. inversion H; subst. congruence.
Qed.

Lemma as_rows_ok (vs : list value) (rows : list (list Q)) :
  as_rows vs = Ok rows <-> vs = VVec <$> rows.
Proof.
  revert rows. induction vs as [|v vs IH]; intros rows; simpl.
  - split.
    + intros [= <-]. reflexivity.
    + destruct rows; [reflexivity | discriminate].
  - destruct v as [s|z|x|row|m]; simpl;
      try (split; [discriminate | destruct rows; discriminate]).
    destruct (as_rows vs) as [rows'|e] eqn:Hrows.
    + split.
      * intros [= <-]. simpl. f_equal. apply IH. reflexivity.
      * destruct rows as [|row' rows'']; [discriminate|]. simpl.
        intros [= -> Hvs]. apply IH in Hvs. injection Hvs as <-. reflexivity.
    + split; [discriminate|].
      destruct rows as [|row' rows'']; [discriminate|]. simpl.
      intros [= -> Hvs]. apply IH in Hvs. discriminate.
Qed.

Lemma forallb_length (n : nat) (rows : list (list Q)) :
  forallb (fun r => length r =? n)%nat rows = true <->
  Forall (fun r => length r = n) rows.
Proof.
  rewrite forallb_forall, Forall_forall. split; intros H r Hr.
  - apply Nat.eqb_eq, H, list_elem_of_In, Hr.
  - apply Nat.eqb_eq, H, list_elem_of_In, Hr.
Qed.

(** The three steps before the record loop succeed exactly when every
    record carries an embedding vector of the index's dimension. *)
Lemma prelude_ok (ix : IndexFlatL2) (docs : list document) :
  Forall (has_embedding (d ix)) docs <->
  exists vs rows ix',
    embeddings_of docs = Ok vs /\ np_array vs = Ok rows /\
    index_add ix rows = Ok ix' /\
    ix' = {| d := d ix; xb := xb ix ++ rows |} /\
    Forall2 (fun doc row => vector_of doc = Some row) docs rows.
Proof.
  split.
  - intros Hall.
    assert (Hrows : exists rows,
      Forall2 (fun doc row => doc !! "embedding" = Some (VVec row)) docs rows /\
      Forall (fun r => length r = d ix) rows).
    { induction Hall as [|doc docs (v & Hv & Hlen) _ (rows & H2 & Hl)].
      - exists []. split; constructor.
      - exists (v :: rows). split; constructor; assumption. }
    destruct Hrows as (rows & H2 & Hl).
    exists (VVec <$> rows), rows, {| d := d ix; xb := xb ix ++ rows |}.
    split; [|split; [|split; [|split]]].
    + apply embeddings_of_ok. apply Forall2_fmap_r.
      eapply Forall2_impl; [exact H2|]. auto.
    + unfold np_array. rewrite (proj2 (as_rows_ok _ rows) eq_refl).
      destruct rows as [|row rows']; [reflexivity|].
      assert (Hf : forallb (fun r => length r =? length row)%nat (row :: rows') = true).
      { apply forallb_length. inversion Hl as [|? ? Hrow Hrest]; subst.
        rewrite Hrow. exact Hl. }
      rewrite Hf. reflexivity.
    + unfold index_add. rewrite (proj2 (forallb_length _ rows) Hl). reflexivity.
    + reflexivity.
    + eapply Forall2_impl; [exact H2|]. intros doc row Hd.
      unfold vector_of. rewrite Hd. reflexivity.
  - intros (vs & rows & ix' & Hvs & Hnp & Hadd & _ & _).
    apply embeddings_of_ok in Hvs.
    unfold np_array in Hnp. destruct (as_rows vs) as [rows'|] eqn:Hrows; [|discriminate].
    apply as_rows_ok in Hrows. subst vs.
    assert (rows' = rows) as ->.
    { destruct rows'; [congruence|]. destruct (forallb _ _); congruence. }
    unfold index_add in Hadd.
    destruct (forallb _ rows) eqn:Hf; [|discriminate].
    apply forallb_length in Hf.
    apply Forall2_fmap_r in Hvs.
    clear -Hvs Hf. induction Hvs as [|doc row docs rows Hd _ IH]; constructor.
    + exists row. inversion Hf; subst. split; [exact Hd | assumption].
    + apply IH. inversion Hf; assumption.
Qed.

(** ** The record loop of [add_documents]: lines 50-59 *)

Lemma key_of_Some (doc : document) (k : string) :
  key_of doc = Some k <->
  exists a b, metadata_get doc "doc_id" = Ok a /\
              metadata_get doc "chunk_id" = Ok b /\ k = unique_id a b.
Proof.
  unfold key_of. split.
  - destruct (metadata_get doc "doc_id") as [a|]; [|discriminate].
    destruct (metadata_get doc "chunk_id") as [b|]; [|discriminate].
    intros [= <-]. eauto.
  - intros (a & b & -> & -> & ->). reflexivity.
Qed.

Lemma entered_nil (m : gmap string nat) (start : nat) : entered m start [] m.
Proof. intros k. reflexivity. Qed.

Lemma entered_cons (m m' : gmap string nat) (start : nat) (doc : document)
    (docs : list document) (k0 : string) :
  key_of doc = Some k0 ->
  entered (<[k0 := start]> m) (S start) docs m' ->
  entered m start (doc :: docs) m'.
Proof.
  intros Hk Hent k. rewrite (Hent k). simpl.
  destruct (last_with_key k docs) as [j|].
  - f_equal. lia.
  - rewrite Hk. case_bool_decide as Heq.
    + injection Heq as ->. rewrite lookup_insert_eq. f_equal. lia.
    + rewrite lookup_insert_ne; [reflexivity | congruence].
Qed.

Lemma add_loop_outcome (start_idx : nat) (docs : list document) :
  forall i self r self',
    add_loop start_idx i docs self = (r, self') ->
    loop_outcome (start_idx + i) docs self r self'.
Proof.
  induction docs as [|doc docs IH]; intros i self r self' Hrun; simpl in Hrun.
  - injection Hrun as <- <-.
    split; [reflexivity|]. split; [reflexivity|]. split; [constructor|].
    split; [simpl; rewrite app_nil_r; reflexivity | apply entered_nil].
  - destruct (metadata_get doc "doc_id") as [a|e] eqn:Ha.
    + destruct (metadata_get doc "chunk_id") as [b|e] eqn:Hb.
      * assert (Hk : key_of doc = Some (unique_id a b)).
        { apply key_of_Some. eauto. }
        apply IH in Hrun. destruct Hrun as (Hix & Hdim & Hrest).
        split; [exact Hix|]. split; [exact Hdim|].
        simpl in Hrest. destruct r as [[]|e].
        -- destruct Hrest as (Hkeys & Hdocs & Hent). split; [|split].
           ++ constructor; [rewrite Hk; eauto | exact Hkeys].
           ++ rewrite Hdocs, <- app_assoc. reflexivity.
           ++ eapply entered_cons; [exact Hk|].
              replace (S (start_idx + i)) with (start_idx + S i)%nat by lia.
              exact Hent.
        -- destruct Hrest as (n & doc' & Hn & Hnone & Hkeys & Hdocs & Hent).
           exists (S n), doc'. split; [exact Hn|]. split; [exact Hnone|].
           split; [|split].
           ++ simpl. constructor; [rewrite Hk; eauto | exact Hkeys].
           ++ rewrite Hdocs, <- app_assoc. reflexivity.
           ++ simpl. eapply entered_cons; [exact Hk|].
              replace (S (start_idx + i)) with (start_idx + S i)%nat by lia.
              exact Hent.
      * injection Hrun as <- <-.
        split; [reflexivity|]. split; [reflexivity|].
        exists 0%nat, doc. split; [reflexivity|]. split.
        { unfold key_of. rewrite Ha, Hb. reflexivity. }
        split; [constructor|]. split; [reflexivity | apply entered_nil].
    + injection Hrun as <- <-.
      split; [reflexivity|]. split; [reflexivity|].
      exists 0%nat, doc. split; [reflexivity|]. split.
      { unfold key_of. rewrite Ha. reflexivity. }
      split; [constructor|]. split; [reflexivity | apply entered_nil].
Qed.

Lemma add_loop_returns (start_idx : nat) (docs : list document) :
  Forall (fun doc => is_Some (key_of doc)) docs ->
  forall i self, exists self', add_loop start_idx i docs self = (Ok (), self').
Proof.
  induction 1 as [|doc docs [k Hk] _ IH]; intros i self; simpl; [eauto|].
  apply key_of_Some in Hk as (a & b & -> & -> & _). apply IH.
Qed.

(** Whether every record carries an embedding vector of the dimension can
    be decided. *)
Lemma has_embedding_dec (dim : nat) (doc : document) :
  has_embedding dim doc \/ ~ has_embedding dim doc.
Proof.
  unfold has_embedding. destruct (doc !! "embedding") as [[s|z|x|v|m]|];
    try (right; intros (v' & Hv & _); discriminate).
  destruct (decide (length v = dim)) as [Hl|Hl].
  - left. eauto.
  - right. intros (v' & [= <-] & Hl'). contradiction.
Qed.

Lemma classic_prelude (ix : IndexFlatL2) (docs : list document) :
  Forall (has_embedding (d ix)) docs \/ ~ Forall (has_embedding (d ix)) docs.
Proof.
  induction docs as [|doc docs [IH|IH]].
  - left. constructor.
  - destruct (has_embedding_dec (d ix) doc) as [H|H].
    + left. constructor; assumption.
    + right. intros Hall. inversion Hall. contradiction.
  - right. intros Hall. inversion Hall. contradiction.
Qed.

(** ** [add_documents] as a whole *)

(** The three ways a call can go: nothing to add; a failure before the
    record loop; the record loop was run on the extended index. *)
Lemma add_documents_cases (self : SearchEngine) (docs : list document)
    (r : result ()) (self' : SearchEngine) :
  add_documents self docs = (r, self') ->
  (docs = [] /\ r = Ok () /\ self' = self) \/
  (docs <> [] /\ ~ Forall (has_embedding (d (index self))) docs /\
   (exists e, r = Raise e) /\ self' = self) \/
  (docs <> [] /\ Forall (has_embedding (d (index self))) docs /\
   exists rows,
     Forall2 (fun doc row => vector_of doc = Some row) docs rows /\
     loop_outcome (length (documents self)) docs
       (set_index self {| d := d (index self); xb := xb (index self) ++ rows |})
       r self').
Proof.
  intros Hrun. destruct docs as [|doc0 docs0]; [left|right].
  { injection Hrun as <- <-. auto. }
  remember (doc0 :: docs0) as docs eqn:Hdocs.
  assert (Hne : docs <> []) by (subst; discriminate).
  unfold add_documents in Hrun. rewrite Hdocs in Hrun at 1.
  destruct (classic_prelude (index self) docs) as [Hall | Hnot].
  - right. split; [exact Hne|]. split; [exact Hall|].
    destruct (proj1 (prelude_ok (index self) docs) Hall)
      as (vs & rows & ix' & Hvs & Hnp & Hadd & -> & H2).
    rewrite Hvs, Hnp, Hadd in Hrun.
    exists rows. split; [exact H2|].
    replace (length (documents self)) with (length (documents self) + 0)%nat by lia.
    apply add_loop_outcome. exact Hrun.
  - left. split; [exact Hne|]. split; [exact Hnot|].
    destruct (embeddings_of docs) as [vs|e1] eqn:Hvs;
      [|injection Hrun as <- <-; eauto].
    destruct (np_array vs) as [rows|e2] eqn:Hnp;
      [|injection Hrun as <- <-; eauto].
    destruct (index_add (index self) rows) as [ix'|e3] eqn:Hadd;
      [|injection Hrun as <- <-; eauto].
    exfalso. apply Hnot. apply prelude_ok.
    exists vs, rows, ix'. split; [exact Hvs|]. split; [exact Hnp|].
    split; [exact Hadd|].
    assert (Hix : ix' = {| d := d (index self); xb := xb (index self) ++ rows |}).
    { unfold index_add in Hadd. destruct (forallb _ rows); congruence. }
    split; [exact Hix|].
    apply embeddings_of_ok in Hvs. unfold np_array in Hnp.
    destruct (as_rows vs) as [rows'|] eqn:Hrows; [|discriminate].
    apply as_rows_ok in Hrows. subst vs.
    assert (rows' = rows) as ->.
    { destruct rows'; [congruence|]. destruct (forallb _ _); congruence. }
    apply Forall2_fmap_r in Hvs. eapply Forall2_impl; [exact Hvs|].
    intros doc row Hd. unfold vector_of. rewrite Hd. reflexivity.
Qed.

(** ** The identity index *)

Lemma last_with_key_last (k : string) (docs : list document) (i : nat)
    (doc : document) :
  docs !! i = Some doc -> key_of doc = Some k ->
  (forall j doc', (i < j)%nat -> docs !! j = Some doc' -> key_of doc' <> Some k) ->
  last_with_key k docs = Some i.
Proof.
  revert i. induction docs as [|doc0 docs IH]; intros i Hi Hk Hlater; [discriminate|].
  simpl. destruct i as [|i]; simpl in Hi.
  - injection Hi as ->.
    assert (Hnone : last_with_key k docs = None).
    { clear IH. assert (Hl : forall j doc', docs !! j = Some doc' -> key_of doc' <> Some k).
      { intros j doc' Hj. apply (Hlater (S j)); [lia | exact Hj]. }
      clear Hlater. induction docs as [|doc1 docs IH]; [reflexivity|]. simpl.
      rewrite IH; [|intros j doc' Hj; apply (Hl (S j)); exact Hj].
      case_bool_decide as Heq; [|reflexivity].
      exfalso. exact (Hl 0%nat doc1 eq_refl Heq). }
    rewrite Hnone, Hk. case_bool_decide; [reflexivity | congruence].
  - rewrite (IH i Hi Hk); [reflexivity|].
    intros j doc' Hij Hj. apply (Hlater (S j)); [lia | exact Hj].
Qed.

Lemma last_with_key_is_Some (k : string) (docs : list document) :
  is_Some (last_with_key k docs) <-> k ∈ keys_of docs.
Proof.
  unfold keys_of. induction docs as [|doc docs IH]; simpl.
  - split; [intros [? [=]] | intros H; inversion H].
  - destruct (last_with_key k docs) as [j|].
    + split; [|eauto]. intros _.
      assert (Hin : k ∈ omap key_of docs) by (apply IH; eauto).
      destruct (key_of doc); [right|]; exact Hin.
    + case_bool_decide as Heq.
      * split; [|eauto]. intros _. rewrite Heq. left.
      * split; [intros [? [=]]|]. intros Hin.
        destruct (key_of doc) as [k'|] eqn:Hk.
        -- apply elem_of_cons in Hin as [->|Hin]; [congruence|].
           apply IH in Hin. destruct Hin as [? [=]].
        -- apply IH in Hin. destruct Hin as [? [=]].
Qed.

Lemma entered_dom (m m' : gmap string nat) (start : nat) (docs : list document) :
  entered m start docs m' ->
  dom m' = dom m ∪ list_to_set (keys_of docs).
Proof.
  intros Hent. apply set_eq. intros k.
  rewrite elem_of_union, elem_of_list_to_set, !elem_of_dom, (Hent k),
    <- last_with_key_is_Some.
  destruct (last_with_key k docs) as [j|]; split; eauto.
  - intros [H|[? [=]]]; exact H.
Qed.

Lemma size_list_to_set_le (l : list string) :
  (size (list_to_set l : gset string) <= length l)%nat.
Proof.
  induction l as [|x l IH].
  - rewrite list_to_set_nil, size_empty. simpl. lia.
  - rewrite list_to_set_cons, size_union_alt, size_singleton. simpl.
    assert (Hs : (list_to_set l ∖ {[x]} : gset string) ⊆ list_to_set l)
      by (apply subseteq_difference_l; reflexivity).
    apply subseteq_size in Hs. lia.
Qed.

Lemma keys_of_length (docs : list document) :
  Forall (fun doc => is_Some (key_of doc)) docs ->
  length (keys_of docs) = length docs.
Proof.
  unfold keys_of. induction 1 as [|doc docs [k Hk] _ IH]; simpl; [reflexivity|].
  rewrite Hk. simpl. f_equal. exact IH.
Qed.

(** C10: [add_documents] only appends to the record list, whatever its
    outcome, so every record stored before the call is still there,
    unchanged and at its position; when the call returns, the records of the
    batch have been appended in order (without their embeddings), and each
    identity key of the batch maps to the position of the last record added
    with that key, whether or not an earlier record has the same key. *)
Theorem add_documents_appends (self : SearchEngine) (docs : list document)
    (r : result ()) (self' : SearchEngine) :
  add_documents self docs = (r, self') ->
  (exists new, documents self' = documents self ++ new) /\
  (forall n rec, documents self !! n = Some rec ->
                 documents self' !! n = Some rec) /\
  (r = Ok () ->
   documents self' = documents self ++ (delete "embedding" <$> docs) /\
   forall i doc k,
     docs !! i = Some doc -> key_of doc = Some k ->
     (forall j doc', (i < j)%nat -> docs !! j = Some doc' ->
                     key_of doc' <> Some k) ->
     doc_ids_to_indices self' !! k = Some (length (documents self) + i)%nat /\
     documents self' !! (length (documents self) + i)%nat =
       Some (delete "embedding" doc)).
Proof.
  intros Hrun.
  assert (Happ : exists new, documents self' = documents self ++ new).
  { destruct (add_documents_cases _ _ _ _ Hrun)
      as [(_ & _ & ->) | [(_ & _ & _ & ->) | (_ & _ & rows & _ & Hout)]].
    - exists []. rewrite app_nil_r. reflexivity.
    - exists []. rewrite app_nil_r. reflexivity.
    - destruct Hout as (_ & _ & Hout). destruct r as [[]|e].
      + destruct Hout as (_ & Hd & _). eauto.
      + destruct Hout as (n & doc & _ & _ & _ & Hd & _). eauto. }
  split; [exact Happ|]. split.
  { destruct Happ as [new ->]. intros n rec Hn.
    rewrite lookup_app_l; [exact Hn | eapply lookup_lt_Some; exact Hn]. }
  intros ->.
  destruct (add_documents_cases _ _ _ _ Hrun)
    as [(-> & _ & ->) | [(_ & _ & [e He] & _) | (_ & _ & rows & _ & Hout)]].
  - split; [simpl; rewrite app_nil_r; reflexivity|]. intros i doc k Hi. discriminate.
  - discriminate.
  - destruct Hout as (_ & _ & _ & Hd & Hent). simpl in Hd, Hent.
    split; [exact Hd|].
    intros i doc k Hi Hk Hlater. split.
    + rewrite (Hent k), (last_with_key_last k docs i doc Hi Hk Hlater). reflexivity.
    + rewrite Hd. rewrite lookup_app_r; [|lia].
      replace (length (documents self) + i - length (documents self))%nat with i by lia.
      rewrite list_lookup_fmap, Hi. reflexivity.
Qed.

(** C4, as amended: a failure raised before the record loop is atomic, and
    a failure raised inside the record loop is not rolled back. When some
    record of the batch has no embedding vector of the index's dimension the
    call raises and leaves the store as it was; when every record has one
    and the call raises, the record at some position [n] has no identity
    key, the vector index holds the vector of every record of the batch,
    the record list has grown by the records up to and including the
    [n]th, and the identity index has the entries of the records before it. *)
Theorem add_documents_failure (self : SearchEngine) (docs : list document) :
  (~ Forall (has_embedding (d (index self))) docs ->
   exists e, add_documents self docs = (Raise e, self)) /\
  (forall e self',
     add_documents self docs = (Raise e, self') ->
     Forall (has_embedding (d (index self))) docs ->
     exists n doc rows,
       docs !! n = Some doc /\ key_of doc = None /\
       Forall2 (fun doc row => vector_of doc = Some row) docs rows /\
       xb (index self') = xb (index self) ++ rows /\
       documents self' =
         documents self ++ (delete "embedding" <$> take (S n) docs) /\
       entered (doc_ids_to_indices self) (length (documents self))
         (take n docs) (doc_ids_to_indices self')).
Proof.
  split.
  - intros Hnot. destruct (add_documents self docs) as [r self'] eqn:Hrun.
    destruct (add_documents_cases _ _ _ _ Hrun)
      as [(-> & _ & _) | [(_ & _ & [e ->] & ->) | (_ & Hall & _)]].
    + exfalso. apply Hnot. constructor.
    + eauto.
    + contradiction.
  - intros e self' Hrun Hall.
    destruct (add_documents_cases _ _ _ _ Hrun)
      as [(_ & [=] & _) | [(_ & Hnot & _) | (_ & _ & rows & H2 & Hout)]];
      [contradiction|].
    destruct Hout as (Hix & _ & n & doc & Hn & Hk & _ & Hd & Hent).
    exists n, doc, rows. rewrite Hix. simpl. auto 10.
Qed.

(** C4, as stated, fails: the second record of the batch has no metadata;
    the call raises [KeyError] after the vector index has received both
    vectors, the record list both records and the identity index the first
    key. *)
Lemma add_not_atomic_counterexample :
  let good : document :=
    <["metadata" := VDict (<["doc_id" := AStr "a"]> {["chunk_id" := AInt 0]})]>
      {["embedding" := VVec [1%Q]]} in
  let bad : document := {["embedding" := VVec [2%Q]]} in
  let self := new_engine 1 in
  let self' := (add_documents self [good; bad]).2 in
  (add_documents self [good; bad]).1 = Raise KeyError /\
  (ntotal (index self), length (documents self), size (doc_ids_to_indices self))
    = (0, 0, 0)%nat /\
  (ntotal (index self'), length (documents self'), size (doc_ids_to_indices self'))
    = (2, 2, 1)%nat.
Proof. vm_compute. repeat split; reflexivity. Qed.

Lemma add_not_atomic_witness :
  let good : document :=
    <["metadata" := VDict (<["doc_id" := AStr "a"]> {["chunk_id" := AInt 0]})]>
      {["embedding" := VVec [1%Q]]} in
  let bad : document := {["embedding" := VVec [2%Q]]} in
  let wide : document := {["embedding" := VVec [1%Q; 2%Q]]} in
  let self := new_engine 1 in
  (~ Forall (has_embedding (d (index self))) [good; wide] /\
   exists e, add_documents self [good; wide] = (Raise e, self)) /\
  (Forall (has_embedding (d (index self))) [good; bad] /\
   add_documents self [good; bad] =
     (Raise KeyError, (add_documents self [good; bad]).2) /\
   exists n doc rows,
     [good; bad] !! n = Some doc /\ key_of doc = None /\
     Forall2 (fun doc row => vector_of doc = Some row) [good; bad] rows /\
     xb (index (add_documents self [good; bad]).2) = xb (index self) ++ rows /\
     documents (add_documents self [good; bad]).2 =
       documents self ++ (delete "embedding" <$> take (S n) [good; bad]) /\
     entered (doc_ids_to_indices self) (length (documents self))
       (take n [good; bad])
       (doc_ids_to_indices (add_documents self [good; bad]).2)).
Proof.
  intros good bad wide self.
  assert (Hwide : ~ Forall (has_embedding (d (index self))) [good; wide]).
  { intros H. inversion H as [|? ? _ H']; subst. inversion H' as [|? ? Hw _]; subst.
    destruct Hw as (v & Hv & Hl). vm_compute in Hv. injection Hv as <-.
    discriminate Hl. }
  assert (Hbad : Forall (has_embedding (d (index self))) [good; bad]).
  { repeat constructor; eexists; (split; [vm_compute; reflexivity | reflexivity]). }
  assert (Hrun : add_documents self [good; bad] =
                 (Raise KeyError, (add_documents self [good; bad]).2)).
  { vm_compute. reflexivity. }
  split.
  - split; [exact Hwide|].
    exact (proj1 (add_documents_failure self [good; wide]) Hwide).
  - split; [exact Hbad|]. split; [exact Hrun|].
    exact (proj2 (add_documents_failure self [good; bad]) _ _ Hrun Hbad).
Defined.

Lemma add_documents_appends_witness :
  let rec0 : document :=
    <["text" := VStr "first"]>
      (<["metadata" := VDict (<["doc_id" := AStr "a"]> {["chunk_id" := AInt 0]})]>
         {["embedding" := VVec [1%Q]]}) in
  let rec1 : document :=
    <["text" := VStr "again"]>
      (<["metadata" := VDict (<["doc_id" := AStr "a"]> {["chunk_id" := AInt 0]})]>
         {["embedding" := VVec [3%Q]]}) in
  let self := (add_documents (new_engine 1) [rec0]).2 in
  let self' := (add_documents self [rec1]).2 in
  add_documents self [rec1] = (Ok (), self') /\
  doc_ids_to_indices self !! "a_0" = Some 0%nat /\
  documents self' !! 0%nat = Some (delete "embedding" rec0) /\
  documents self' !! 1%nat = Some (delete "embedding" rec1) /\
  doc_ids_to_indices self' !! "a_0" = Some 1%nat.
Proof.
  intros rec0 rec1 self self'.
  assert (Hrun : add_documents self [rec1] = (Ok (), self')).
  { vm_compute. reflexivity. }
  destruct (add_documents_appends self [rec1] (Ok ()) self' Hrun)
    as (_ & Hold & Hnew).
  destruct (Hnew eq_refl) as [_ Hkey].
  destruct (Hkey 0%nat rec1 "a_0" eq_refl) as [Hid Hrec].
  { vm_compute. reflexivity. }
  { intros j doc' Hj Hl. destruct j; [lia | discriminate Hl]. }
  split; [exact Hrun|]. split; [vm_compute; reflexivity|].
  split; [apply Hold; vm_compute; reflexivity|].
  split; [exact Hrec | exact Hid].
Defined.

(** ** Sequences of [add_documents] calls *)

Lemma add_documents_holds (dim : nat) (all : list document) (self : SearchEngine)
    (docs : list document) :
  holds dim all self ->
  Forall (well_formed dim) docs ->
  (add_documents self docs).1 = Ok () /\
  holds dim (all ++ docs) (add_documents self docs).2.
Proof.
  intros (Hdim & Hdocs & Hvec & Hdom) Hwf.
  assert (Hemb : Forall (has_embedding (d (index self))) docs).
  { rewrite Hdim. eapply Forall_impl; [exact Hwf|]. intros doc [H _]. exact H. }
  assert (Hkeys : Forall (fun doc => is_Some (key_of doc)) docs).
  { eapply Forall_impl; [exact Hwf|]. intros doc [_ H]. exact H. }
  destruct (add_documents self docs) as [r self'] eqn:Hrun. simpl.
  destruct (add_documents_cases _ _ _ _ Hrun)
    as [(-> & -> & ->) | [(_ & Hnot & _) | (_ & _ & rows & H2 & Hout)]].
  - split; [reflexivity|]. rewrite app_nil_r. repeat split; assumption.
  - contradiction.
  - destruct Hout as (Hix & _ & Hout). simpl in Hix, Hout.
    destruct r as [[]|e].
    + destruct Hout as (_ & Hd & Hent). split; [reflexivity|].
      split; [rewrite Hix; exact Hdim|]. split; [|split].
      * rewrite Hd, Hdocs, fmap_app. reflexivity.
      * rewrite Hix. simpl. apply Forall2_app; assumption.
      * rewrite (entered_dom _ _ _ _ Hent), Hdom.
        unfold keys_of. rewrite omap_app, list_to_set_app_L. reflexivity.
    + destruct Hout as (n & doc & Hn & Hnone & _). exfalso.
      rewrite Forall_forall in Hkeys.
      destruct (Hkeys doc) as [k Hk]; [|congruence].
      apply list_elem_of_lookup. eauto.
Qed.

Lemma add_all_holds (dim : nat) (batches : list (list document)) :
  Forall (Forall (well_formed dim)) batches ->
  forall all self,
    holds dim all self ->
    holds dim (all ++ concat batches) (add_all self batches).
Proof.
  induction 1 as [|docs batches Hwf _ IH]; intros all self Hs; simpl.
  - rewrite app_nil_r. exact Hs.
  - rewrite app_assoc. apply IH.
    apply (add_documents_holds dim all self docs Hs Hwf).
Qed.

(** C3, as amended: after any sequence of [add_documents] calls on a new
    store, each with well-formed records of the configured dimension, the
    number of stored records equals the number of vectors in the vector
    index, the Nth record is the Nth record added (without its embedding)
    and the Nth vector is that record's embedding; the identity index has
    one entry per distinct identity key, so it has at most as many entries
    as there are records, and as many when no key was added twice. *)
Theorem add_all_invariant (dim : nat) (batches : list (list document)) :
  Forall (Forall (well_formed dim)) batches ->
  let self := add_all (new_engine dim) batches in
  let all := concat batches in
  length (documents self) = ntotal (index self) /\
  documents self = delete "embedding" <$> all /\
  Forall2 (fun doc row => vector_of doc = Some row) all (xb (index self)) /\
  dom (doc_ids_to_indices self) = list_to_set (keys_of all) /\
  (size (doc_ids_to_indices self) <= length (documents self))%nat /\
  (NoDup (keys_of all) ->
   size (doc_ids_to_indices self) = length (documents self)).
Proof.
  intros Hwf self all.
  assert (Hnew : holds dim [] (new_engine dim)).
  { split; [reflexivity|]. split; [reflexivity|]. split; [constructor|].
    simpl. rewrite dom_empty_L. reflexivity. }
  destruct (add_all_holds dim batches Hwf [] (new_engine dim) Hnew)
    as (_ & Hdocs & Hvec & Hdom).
  simpl in Hdocs, Hvec, Hdom. fold self all in Hdocs, Hvec, Hdom.
  assert (Hlen : length (documents self) = length all).
  { rewrite Hdocs, length_fmap. reflexivity. }
  assert (Hkeys : length (keys_of all) = length all).
  { apply keys_of_length. unfold all. apply Forall_concat.
    eapply Forall_impl; [exact Hwf|]. intros docs Hd.
    eapply Forall_impl; [exact Hd|]. intros doc [_ H]. exact H. }
  split; [|split; [exact Hdocs | split; [exact Hvec | split; [exact Hdom|]]]].
  - unfold ntotal. rewrite Hlen. apply (Forall2_length _ _ _ Hvec).
  - rewrite <- size_dom, Hdom, Hlen, <- Hkeys. split.
    + apply size_list_to_set_le.
    + intros Hnd. apply size_list_to_set. exact Hnd.
Qed.

Lemma add_all_invariant_witness :
  let rec (id : string) (c : Z) (x : Q) : document :=
    <["text" := VStr "t"]>
      (<["metadata" := VDict (<["doc_id" := AStr id]> {["chunk_id" := AInt c]})]>
         {["embedding" := VVec [x; 0%Q]]}) in
  let batches := [[rec "a" 0 1%Q; rec "a" 1 2%Q; rec "a" 2 3%Q];
                  [rec "b" 0 4%Q; rec "b" 1 5%Q]] in
  let self := add_all (new_engine 2) batches in
  Forall (Forall (well_formed 2)) batches /\
  NoDup (keys_of (concat batches)) /\
  length (documents self) = 5%nat /\
  ntotal (index self) = 5%nat /\
  size (doc_ids_to_indices self) = 5%nat.
Proof.
  intros rec batches self.
  assert (Hwf : Forall (Forall (well_formed 2)) batches).
  { repeat constructor; try (eexists; vm_compute; split; reflexivity);
      (eexists; vm_compute; reflexivity). }
  assert (Hnd : NoDup (keys_of (concat batches))).
  { vm_compute. repeat (constructor; [intros H; repeat (inversion H; subst; clear H;
      match goal with H' : _ ∈ _ |- _ => rename H' into H | _ => idtac end)|]).
    constructor. }
  destruct (add_all_invariant 2 batches Hwf) as (Hlen & Hdocs & _ & _ & _ & Hsize).
  fold self in Hlen, Hdocs, Hsize.
  assert (H5 : length (documents self) = 5%nat).
  { rewrite Hdocs, length_fmap. reflexivity. }
  split; [exact Hwf|]. split; [exact Hnd|]. split; [exact H5|].
  split; [rewrite <- Hlen; exact H5|].
  rewrite (Hsize Hnd). exact H5.
Defined.

(** C3, as stated, fails: the same well-formed record added twice leaves
    two records and two vectors but one entry in the identity index. *)
Lemma identity_index_counterexample :
  let rec0 : document :=
    <["text" := VStr "t"]>
      (<["metadata" := VDict (<["doc_id" := AStr "a"]> {["chunk_id" := AInt 0]})]>
         {["embedding" := VVec [1%Q]]}) in
  let self := add_all (new_engine 1) [[rec0]; [rec0]] in
  Forall (Forall (well_formed 1)) [[rec0]; [rec0]] /\
  length (documents self) = 2%nat /\
  ntotal (index self) = 2%nat /\
  size (doc_ids_to_indices self) = 1%nat.
Proof.
  intros rec0 self. split.
  - repeat constructor; try (eexists; vm_compute; split; reflexivity);
      (eexists; vm_compute; reflexivity).
  - vm_compute. repeat split; reflexivity.
Qed.

(** ** The flat index *)

#[local] Instance by_distance_trans : Transitive by_distance.
Proof. intros a b c. unfold by_distance. apply Qle_trans. Qed.

#[local] Instance by_distance_total : Total by_distance.
Proof.
  intros a b. unfold by_distance.
  destruct (Qlt_le_dec a.1 b.1) as [H|H]; [left; apply Qlt_le_weak, H | right; exact H].
Qed.

Lemma sq_nonneg (a b : Q) : (0 <= (a - b) * (a - b))%Q.
Proof.
  destruct (Qlt_le_dec (a - b) 0) as [H|H].
  - assert (E : ((a - b) * (a - b) == (b - a) * (b - a))%Q) by ring.
    rewrite E. apply Qmult_le_0_compat; lra.
  - apply Qmult_le_0_compat; lra.
Qed.

Lemma sq_dist_nonneg (x y : list Q) : (0 <= sq_dist x y)%Q.
Proof.
  unfold sq_dist. revert y. induction x as [|a x IH]; intros [|b y]; simpl; try lra.
  pose proof (sq_nonneg a b). pose proof (IH y). lra.
Qed.

Lemma fvec_L2sqr_Some (q x : list Q) (dist : Q) :
  fvec_L2sqr q x = Some dist ->
  dist = sq_dist q x /\ (dist < FLT_MAX)%Q.
Proof.
  unfold fvec_L2sqr.
  destruct (forallb finite q && forallb finite x); [|discriminate].
  destruct (Qle_bool FLT_MAX (sq_dist q x)) eqn:Hle; [discriminate|].
  intros [= <-]. split; [reflexivity|].
  apply Qnot_le_lt. intros H. apply Qle_bool_iff in H. congruence.
Qed.

Lemma reported_from_cons (j : nat) (q x : list Q) (rows : list (list Q)) :
  reported_from j q (x :: rows) =
  match fvec_L2sqr q x with
  | Some dist => (dist, Z.of_nat j) :: reported_from (S j) q rows
  | None => reported_from (S j) q rows
  end.
Proof.
  unfold reported_from. rewrite imap_cons, Nat.add_0_r.
  assert (E : imap ((fun i x0 => (fun dist => (dist, Z.of_nat (j + i)))
                                   <$> fvec_L2sqr q x0) ∘ S) rows =
              imap (fun i x0 => (fun dist => (dist, Z.of_nat (S j + i)))
                                  <$> fvec_L2sqr q x0) rows).
  { apply imap_ext. intros i y _. simpl. rewrite Nat.add_succ_r. reflexivity. }
  rewrite E. destruct (fvec_L2sqr q x); reflexivity.
Qed.

(** Each hit is a stored vector at its squared distance, under the label of
    its position. *)
Lemma reported_from_elem (q : list Q) (rows : list (list Q)) :
  forall j h,
    h ∈ reported_from j q rows ->
    exists i x,
      rows !! i = Some x /\ h = (sq_dist q x, Z.of_nat (j + i)) /\
      fvec_L2sqr q x = Some (sq_dist q x).
Proof.
  induction rows as [|row rows IH]; intros j h Hh.
  - apply elem_of_nil in Hh. contradiction.
  - rewrite reported_from_cons in Hh.
    assert (Htail : h ∈ reported_from (S j) q rows ->
                    exists i x,
                      (row :: rows) !! i = Some x /\
                      h = (sq_dist q x, Z.of_nat (j + i)) /\
                      fvec_L2sqr q x = Some (sq_dist q x)).
    { intros H. destruct (IH _ _ H) as (i & x & Hi & -> & Hx).
      exists (S i), x. split; [exact Hi|]. split; [|exact Hx].
      rewrite Nat.add_succ_r. reflexivity. }
    destruct (fvec_L2sqr q row) as [dist|] eqn:Hrow; [|exact (Htail Hh)].
    apply elem_of_cons in Hh as [->|Hh]; [|exact (Htail Hh)].
    destruct (fvec_L2sqr_Some _ _ _ Hrow) as [-> _].
    exists 0%nat, row. split; [reflexivity|]. split; [|exact Hrow].
    rewrite Nat.add_0_r. reflexivity.
Qed.

Lemma reported_from_labels (q : list Q) (rows : list (list Q)) :
  forall j, NoDup (reported_from j q rows).*2.
Proof.
  induction rows as [|row rows IH]; intros j.
  - constructor.
  - rewrite reported_from_cons.
    destruct (fvec_L2sqr q row) as [dist|]; [|apply IH].
    rewrite fmap_cons. apply NoDup_cons. split; [|apply IH]. simpl.
    intros Hin. apply list_elem_of_fmap in Hin as (h & Hj & Hh).
    apply reported_from_elem in Hh as (i & x & _ & -> & _). simpl in Hj. lia.
Qed.

Lemma reported_from_all (q : list Q) (rows : list (list Q)) :
  Forall (fun x => is_Some (fvec_L2sqr q x)) rows ->
  forall j, length (reported_from j q rows) = length rows.
Proof.
  induction 1 as [|row rows [dist Hrow] _ IH]; intros j; [reflexivity|].
  rewrite reported_from_cons, Hrow. simpl. rewrite IH. reflexivity.
Qed.

Lemma reported_real (ix : IndexFlatL2) (q : list Q) (h : Q * Z) :
  h ∈ reported_from 0 q (xb ix) ->
  real_hit (ntotal ix) h /\ measured ix q h.
Proof.
  intros Hh. apply reported_from_elem in Hh as (i & x & Hi & -> & _).
  simpl. split.
  - split; simpl; [apply sq_dist_nonneg|].
    apply lookup_lt_Some in Hi. unfold ntotal. lia.
  - exists x. simpl. rewrite Nat2Z.id. split; [exact Hi | reflexivity].
Qed.

(** What [index.search] returns: [k] hits, of which the first are stored
    vectors in order of distance, with distinct labels, each at its squared
    distance from the query, and the rest is padding. *)
Lemma index_search_spec (ix : IndexFlatL2) (q : list Q) (k : Z)
    (hits : list (Q * Z)) :
  index_search ix q k = Ok hits ->
  exists best pad,
    hits = best ++ replicate pad (FLT_MAX, -1) /\
    (length best + pad)%nat = Z.to_nat k /\
    StronglySorted by_distance best /\
    NoDup best.*2 /\
    Forall (real_hit (ntotal ix)) best /\
    Forall (measured ix q) best.
Proof.
  unfold index_search.
  destruct (negb (length q =? d ix)%nat); [discriminate|].
  destruct (Z.leb_spec k 0); [discriminate|].
  change (omap id _) with (reported_from 0 q (xb ix)).
  set (found := reported_from 0 q (xb ix)).
  set (sorted := merge_sort by_distance found).
  intros [= <-].
  exists (take (Z.to_nat k) sorted),
         (Z.to_nat k - length (take (Z.to_nat k) sorted))%nat.
  assert (Hperm : sorted ≡ₚ found) by apply merge_sort_Permutation.
  assert (Hsorted : StronglySorted by_distance sorted)
    by apply (StronglySorted_merge_sort by_distance).
  split; [reflexivity|]. split; [rewrite length_take; lia|].
  rewrite <- (take_drop (Z.to_nat k) sorted) in Hsorted, Hperm.
  split; [|split; [|split]].
  - eapply StronglySorted_app_1_l. exact Hsorted.
  - assert (Hnd : NoDup found.*2) by apply reported_from_labels.
    rewrite <- Hperm, fmap_app in Hnd. apply NoDup_app in Hnd. tauto.
  - assert (Hall : Forall (real_hit (ntotal ix)) found).
    { apply Forall_forall. intros h Hh. apply (reported_real ix q h Hh). }
    rewrite <- Hperm in Hall. apply Forall_app in Hall. tauto.
  - assert (Hall : Forall (measured ix q) found).
    { apply Forall_forall. intros h Hh. apply (reported_real ix q h Hh). }
    rewrite <- Hperm in Hall. apply Forall_app in Hall. tauto.
Qed.

(** ** The result loop of [search]: lines 83-88 *)

Lemma position_real {A} (l : list A) (idx : Z) :
  0 <= idx < len l -> position l idx = Some (Z.to_nat idx).
Proof.
  intros H. unfold position.
  destruct (Z.ltb_spec idx 0); [lia|].
  destruct (Z.leb_spec 0 idx); [|lia].
  destruct (Z.ltb_spec idx (len l)); [reflexivity | lia].
Qed.

Lemma position_Some {A} (l : list A) (idx : Z) (i : nat) :
  0 <= idx -> position l idx = Some i ->
  i = Z.to_nat idx /\ (i < length l)%nat.
Proof.
  intros H0. unfold position, len.
  destruct (Z.ltb_spec idx 0); [lia|].
  destruct (Z.leb_spec 0 idx); [|lia].
  destruct (Z.ltb_spec idx (Z.of_nat (length l))); [|discriminate].
  intros [= <-]. split; [reflexivity | lia].
Qed.

Lemma score_of_insert (doc : document) (x : Q) :
  score_of (<["score" := VFloat x]> doc) = Some x.
Proof. unfold score_of. rewrite lookup_insert_eq. reflexivity. Qed.

Lemma search_loop_padding (pad : nat) (x : Q) (docs : list document)
    (results : list nat) :
  search_loop (replicate pad (x, -1)) docs results = (Ok results, docs).
Proof. induction pad as [|pad IH]; simpl; [reflexivity | exact IH]. Qed.

Lemma search_loop_app (hits1 hits2 : list (Q * Z)) :
  forall docs results,
    search_loop (hits1 ++ hits2) docs results =
    match search_loop hits1 docs results with
    | (Ok results1, docs1) => search_loop hits2 docs1 results1
    | (Raise e, docs1) => (Raise e, docs1)
    end.
Proof.
  induction hits1 as [|[dist idx] hits1 IH]; intros docs results; simpl;
    [reflexivity|].
  destruct (idx =? -1); [apply IH|].
  destruct (position docs idx) as [i|]; [|reflexivity].
  destruct (docs !! i); [apply IH | reflexivity].
Qed.

(** On hits with distinct, non-negative labels the loop returns the labels
    in order, and each stored dictionary it names ends with the score of
    its own hit; the other stored dictionaries are untouched. *)
Lemma search_loop_scores (best : list (Q * Z)) :
  forall docs results refs docs',
    search_loop best docs results = (Ok refs, docs') ->
    Forall (fun h => 0 <= h.2) best ->
    NoDup best.*2 ->
    refs = results ++ (Z.to_nat <$> best.*2) /\
    length docs' = length docs /\
    Forall (fun h => exists doc,
              docs' !! Z.to_nat h.2 = Some doc /\
              score_of doc = Some (1 / (1 + h.1))%Q) best /\
    (forall i, Z.of_nat i ∉ best.*2 -> docs' !! i = docs !! i).
Proof.
  induction best as [|[dist idx] best IH]; intros docs results refs docs' Hrun Hpos Hnd.
  - simpl in Hrun. injection Hrun as <- <-.
    split; [simpl; rewrite app_nil_r; reflexivity|]. split; [reflexivity|].
    split; [constructor | reflexivity].
  - simpl in Hrun. inversion Hpos as [|? ? Hidx Hpos']; subst. simpl in Hidx.
    rewrite fmap_cons in Hnd. apply NoDup_cons in Hnd as [Hfresh Hnd]. simpl in Hfresh.
    destruct (Z.eqb_spec idx (-1)); [lia|].
    destruct (position docs idx) as [i|] eqn:Hi; [|discriminate].
    apply position_Some in Hi as [-> Hlt]; [|exact Hidx].
    destruct (docs !! Z.to_nat idx) as [doc|] eqn:Hdoc; [|discriminate].
    destruct (IH _ _ _ _ Hrun Hpos' Hnd) as (Hrefs & Hlen & Hall & Hframe).
    rewrite length_insert in Hlen.
    split; [rewrite Hrefs, <- app_assoc; reflexivity|]. split; [exact Hlen|].
    split.
    + constructor; [|exact Hall]. simpl.
      exists (<["score" := VFloat (1 / (1 + dist))]> doc). split.
      * rewrite Hframe; [|rewrite Z2Nat.id; [exact Hfresh | exact Hidx]].
        apply list_lookup_insert_eq. exact Hlt.
      * apply score_of_insert.
    + intros i Hi. rewrite fmap_cons in Hi. apply not_elem_of_cons in Hi as [Hne Hi].
      simpl in Hne. rewrite (Hframe i Hi).
      apply list_lookup_insert_ne. intros Heq. apply Hne.
      rewrite <- Heq. apply Z2Nat.id. exact Hidx.
Qed.

Lemma search_loop_returns (best : list (Q * Z)) :
  forall docs results,
    Forall (real_hit (length docs)) best ->
    exists refs docs', search_loop best docs results = (Ok refs, docs').
Proof.
  induction best as [|[dist idx] best IH]; intros docs results Hreal; simpl; [eauto|].
  inversion Hreal as [|? ? [_ Hidx] Hreal']; subst. simpl in Hidx.
  destruct (Z.eqb_spec idx (-1)); [lia|].
  rewrite (position_real docs idx) by (unfold len; lia).
  destruct (lookup_lt_is_Some_2 docs (Z.to_nat idx)) as [doc ->]; [lia|].
  apply IH. rewrite length_insert. exact Hreal'.
Qed.

Lemma deref_scores (docs : list document) (best : list (Q * Z)) :
  Forall (fun h => exists doc,
            docs !! Z.to_nat h.2 = Some doc /\
            score_of doc = Some (1 / (1 + h.1))%Q) best ->
  Forall2 (fun doc h => score_of doc = Some (1 / (1 + h.1))%Q)
    (deref docs (Z.to_nat <$> best.*2)) best.
Proof.
  unfold deref. induction 1 as [|h best (doc & Hdoc & Hsc) _ IH]; simpl.
  - constructor.
  - rewrite Hdoc. simpl. constructor; [exact Hsc | exact IH].
Qed.

(** ** Scores *)

Lemma score_pos (x : Q) : (0 <= x)%Q -> (0 < 1 / (1 + x))%Q.
Proof. intros Hx. apply Qlt_shift_div_l; lra. Qed.

Lemma score_le_1 (x : Q) : (0 <= x)%Q -> (1 / (1 + x) <= 1)%Q.
Proof. intros Hx. apply Qle_shift_div_r; lra. Qed.

Lemma score_antitone (x y : Q) :
  (0 <= x)%Q -> (x <= y)%Q -> (1 / (1 + y) <= 1 / (1 + x))%Q.
Proof.
  intros Hx Hxy. apply Qle_shift_div_r; [lra|].
  assert (H : (1 / (1 + x) * (1 + y) == (1 + y) / (1 + x))%Q) by (field; lra).
  rewrite H. apply Qle_shift_div_l; lra.
Qed.

Lemma scores_sorted (best : list (Q * Z)) :
  Forall (fun h => (0 <= h.1)%Q) best ->
  StronglySorted by_distance best ->
  StronglySorted (fun a b => (b <= a)%Q)
    ((fun h => (1 / (1 + h.1))%Q) <$> best).
Proof.
  intros Hpos Hsorted. induction Hsorted as [|h best _ IH Hle]; simpl.
  - constructor.
  - inversion Hpos as [|? ? Hh Hpos']; subst.
    constructor; [apply IH; exact Hpos'|].
    apply Forall_fmap. rewrite Forall_forall in *. intros h' Hin. simpl.
    apply score_antitone; [exact Hh | exact (Hle h' Hin)].
Qed.

(** ** [search] as a whole *)

(** What a returning call has done: the hits [best] of the index, nearest
    first, name the dictionaries returned, and each carries its score. *)
Lemma search_returned (self : SearchEngine) (q : list Q) (top_k : Z)
    (refs : list nat) (self' : SearchEngine) :
  search self q top_k = (Ok refs, self') ->
  exists best,
    (Z.of_nat (length best) <= Z.max 0 (Z.min top_k (len (documents self)))) /\
    StronglySorted by_distance best /\
    Forall (fun h => (0 <= h.1)%Q) best /\
    refs = Z.to_nat <$> best.*2 /\
    index self' = index self /\
    doc_ids_to_indices self' = doc_ids_to_indices self /\
    length (documents self') = length (documents self) /\
    Forall2 (fun doc h => score_of doc = Some (1 / (1 + h.1))%Q)
      (deref (documents self') refs) best /\
    (forall i, Z.of_nat i ∉ best.*2 -> documents self' !! i = documents self !! i) /\
    Forall (fun h => 0 <= h.2 /\ measured (index self) q h) best /\
    (documents self <> [] ->
     exists pad,
       index_search (index self) q (Z.min top_k (len (documents self))) =
       Ok (best ++ replicate pad (FLT_MAX, -1))).
Proof.
  unfold search. destruct (length (documents self) =? 0)%nat eqn:Hempty.
  { intros [= <- <-]. exists []. simpl.
    split; [lia|]. split; [constructor|]. split; [constructor|].
    repeat (split; [reflexivity|]). split; [constructor|].
    split; [reflexivity|]. split; [constructor|].
    intros Hne. apply Nat.eqb_eq in Hempty.
    destruct (documents self); [congruence | discriminate]. }
  destruct (index_search (index self) q _) as [hits|] eqn:Hhits;
    [|discriminate].
  apply index_search_spec in Hhits
    as (best & pad & -> & Hlen & Hsorted & Hnd & Hreal & Hmeasured).
  rewrite search_loop_app.
  destruct (search_loop best (documents self) []) as [[refs1|e] docs1] eqn:Hloop;
    [|discriminate].
  rewrite search_loop_padding. intros [= <- <-]. simpl.
  assert (Hpos : Forall (fun h => 0 <= h.2) best).
  { eapply Forall_impl; [exact Hreal|]. intros h [_ H]. lia. }
  destruct (search_loop_scores best _ _ _ _ Hloop Hpos Hnd)
    as (Hrefs & Hlen' & Hall & Hframe).
  simpl in Hrefs. subst refs1. exists best.
  split; [lia|]. split; [exact Hsorted|].
  split; [eapply Forall_impl; [exact Hreal|]; intros h [H _]; exact H|].
  repeat (split; [first [reflexivity | exact Hlen']|]).
  split; [apply deref_scores; exact Hall|]. split; [exact Hframe|].
  split; [|intros _; exists pad; reflexivity].
  rewrite Forall_forall in *. intros h Hh.
  split; [exact (Hpos h Hh) | exact (Hmeasured h Hh)].
Qed.

(** C6: for every store state, every query vector and every [top_k >= 1],
    a call of [search] that returns gives at most [min(top_k, recordCount)]
    results, in order of non-increasing score. The results are the records
    under the labels of the hits [best] that the index reported for the
    query, in the order of the hits: on a store with records the index
    returned [best] and padding, each hit is the stored vector of its label
    at its squared distance from the query, and the result of a hit with
    distance [dist] has the score [1 / (1 + dist)], which lies in [(0, 1]]
    as the distance is not negative. And the call does return when the
    store holds as many records as vectors and the query has the index's
    dimension. Scores and distances are rationals. *)
Theorem search_ranked (self : SearchEngine) (q : list Q) (top_k : Z) :
  1 <= top_k ->
  (forall refs self',
     search self q top_k = (Ok refs, self') ->
     let results := deref (documents self') refs in
     length results = length refs /\
     len results <= Z.min top_k (len (documents self)) /\
     exists best,
       (documents self <> [] ->
        exists pad,
          index_search (index self) q (Z.min top_k (len (documents self))) =
          Ok (best ++ replicate pad (FLT_MAX, -1))) /\
       refs = Z.to_nat <$> best.*2 /\
       Forall2 (fun doc h => score_of doc = Some (1 / (1 + h.1))%Q)
         results best /\
       StronglySorted (fun a b => (b <= a)%Q)
         ((fun h => (1 / (1 + h.1))%Q) <$> best) /\
       Forall (fun h =>
                 0 <= h.2 /\
                 (exists v, xb (index self) !! Z.to_nat h.2 = Some v /\
                            h.1 = sq_dist q v) /\
                 (0 <= h.1)%Q /\
                 (0 < 1 / (1 + h.1))%Q /\ (1 / (1 + h.1) <= 1)%Q) best) /\
  (q <> [] -> length q = d (index self) ->
   ntotal (index self) = length (documents self) ->
   exists refs self', search self q top_k = (Ok refs, self')).
Proof.
  intros Hk. split.
  - intros refs self' Hrun results.
    destruct (search_returned _ _ _ _ _ Hrun)
      as (best & Hlen & Hsorted & Hpos & Hrefs & _ & _ & _ & Hsc & _ & Hmeasured & Hhits).
    fold results in Hsc.
    assert (Hres : length results = length best) by apply (Forall2_length _ _ _ Hsc).
    split; [rewrite Hres, Hrefs, !length_fmap; reflexivity|].
    split; [unfold len in *; lia|].
    exists best. split; [exact Hhits|]. split; [exact Hrefs|].
    split; [exact Hsc|].
    split; [apply scores_sorted; assumption|].
    rewrite Forall_forall in *. intros h Hh.
    destruct (Hmeasured h Hh) as [Hlabel Hv].
    split; [exact Hlabel|]. split; [exact Hv|].
    split; [exact (Hpos h Hh)|].
    split; [apply score_pos | apply score_le_1]; exact (Hpos h Hh).
  - intros Hq Hdim Hinv. unfold search.
    destruct (length (documents self) =? 0)%nat eqn:Hempty; [eauto|].
    apply Nat.eqb_neq in Hempty.
    destruct (index_search (index self) q _) as [hits|e] eqn:Hhits.
    + apply index_search_spec in Hhits
        as (best & pad & -> & _ & _ & _ & Hreal & _).
      rewrite search_loop_app. rewrite Hinv in Hreal.
      destruct (search_loop_returns best (documents self) [] Hreal)
        as (refs & docs' & ->).
      rewrite search_loop_padding. eauto.
    + exfalso. unfold index_search in Hhits.
      rewrite Hdim, Nat.eqb_refl in Hhits. simpl in Hhits.
      destruct (Z.leb_spec (Z.min top_k (len (documents self))) 0);
        [unfold len in *; lia | discriminate].
Qed.

Lemma search_ranked_witness :
  let rec (id : string) (c : Z) (x y : Q) : document :=
    <["text" := VStr "t"]>
      (<["metadata" := VDict (<["doc_id" := AStr id]> {["chunk_id" := AInt c]})]>
         {["embedding" := VVec [x; y]]}) in
  let self :=
    add_all (new_engine 2)
      [[rec "a" 0 0%Q 0%Q; rec "a" 1 3%Q 4%Q; rec "a" 2 1%Q 0%Q];
       [rec "b" 0 1%Q 1%Q; rec "b" 1 9%Q 9%Q]] in
  let q := [1; 1]%Q in
  1 <= 10 /\
  q <> [] /\ length q = d (index self) /\
  ntotal (index self) = length (documents self) /\
  (exists refs self', search self q 10 = (Ok refs, self')) /\
  (search self q 10).1 = Ok [3; 2; 0; 1; 4]%nat /\
  (score_of <$> deref (documents (search self q 10).2) [3; 2; 0; 1; 4]%nat) =
    [Some 1; Some (1 # 2); Some (1 # 3); Some (1 # 14); Some (1 # 129)]%Q /\
  exists best,
    [3; 2; 0; 1; 4]%nat = Z.to_nat <$> best.*2 /\
    Forall2 (fun doc h => score_of doc = Some (1 / (1 + h.1))%Q)
      (deref (documents (search self q 10).2) [3; 2; 0; 1; 4]%nat) best /\
    StronglySorted (fun a b => (b <= a)%Q)
      ((fun h => (1 / (1 + h.1))%Q) <$> best) /\
    Forall (fun h => exists v, xb (index self) !! Z.to_nat h.2 = Some v /\
                               h.1 = sq_dist q v) best.
Proof.
  intros rec self q.
  assert (Hk : 1 <= 10) by lia.
  assert (Hq : q <> []) by discriminate.
  assert (Hdim : length q = d (index self)) by (vm_compute; reflexivity).
  assert (Hinv : ntotal (index self) = length (documents self))
    by (vm_compute; reflexivity).
  assert (Hrun : search self q 10 = (Ok [3; 2; 0; 1; 4]%nat, (search self q 10).2)).
  { vm_compute. reflexivity. }
  destruct (search_ranked self q 10 Hk) as [Hranked Hreturns].
  split; [exact Hk|]. split; [exact Hq|]. split; [exact Hdim|].
  split; [exact Hinv|]. split; [exact (Hreturns Hq Hdim Hinv)|].
  split; [rewrite Hrun; reflexivity|].
  split; [vm_compute; reflexivity|].
  destruct (Hranked _ _ Hrun) as (_ & _ & best & _ & Hrefs & Hsc & Hsorted & Hall).
  exists best. split; [exact Hrefs|]. split; [exact Hsc|].
  split; [exact Hsorted|].
  eapply Forall_impl; [exact Hall|]. intros h (_ & Hv & _). exact Hv.
Defined.

(** ** [search] and the stored records *)

(** C7 (the code does not do what the claim says): [search] writes the
    score into the stored dictionary it returns. The store holds one record
    without a score; after a search the stored record has the score [1]. *)
Theorem search_writes_score :
  let rec0 : document :=
    <["text" := VStr "t"]>
      (<["metadata" := VDict (<["doc_id" := AStr "a"]> {["chunk_id" := AInt 0]})]>
         {["embedding" := VVec [0%Q]]}) in
  let self := (add_documents (new_engine 1) [rec0]).2 in
  let self' := (search self [0%Q] 1).2 in
  (search self [0%Q] 1).1 = Ok [0%nat] /\
  score_of <$> documents self = [None] /\
  score_of <$> documents self' = [Some 1%Q] /\
  documents self' <> documents self.
Proof.
  intros rec0 self self'.
  assert (H1 : score_of <$> documents self = [None]) by (vm_compute; reflexivity).
  assert (H2 : score_of <$> documents self' = [Some 1%Q]) by (vm_compute; reflexivity).
  split; [vm_compute; reflexivity|]. split; [exact H1|]. split; [exact H2|].
  intros Heq. rewrite Heq, H1 in H2. discriminate H2.
Qed.

(** What [search] does leave alone: the vector index, the identity index,
    the number of records, and every record it does not return. *)
Lemma search_frame (self : SearchEngine) (q : list Q) (top_k : Z)
    (refs : list nat) (self' : SearchEngine) :
  search self q top_k = (Ok refs, self') ->
  index self' = index self /\
  doc_ids_to_indices self' = doc_ids_to_indices self /\
  length (documents self') = length (documents self) /\
  forall i, i ∉ refs -> documents self' !! i = documents self !! i.
Proof.
  intros Hrun.
  destruct (search_returned _ _ _ _ _ Hrun)
    as (best & _ & _ & Hpos & -> & Hix & Hids & Hlen & _ & Hframe & _).
  repeat (split; [assumption|]). intros i Hi. apply Hframe.
  intros Hin. apply Hi. apply list_elem_of_fmap. exists (Z.of_nat i).
  split; [rewrite Nat2Z.id; reflexivity | exact Hin].
Qed.

(** ** [save_index] and [load_index] *)

Lemma search_results_ext (self1 self2 : SearchEngine) (q : list Q) (top_k : Z) :
  index self1 = index self2 -> documents self1 = documents self2 ->
  search_results self1 q top_k = search_results self2 q top_k.
Proof.
  intros Hix Hdocs. unfold search_results, search. rewrite Hix, Hdocs.
  destruct (length (documents self2) =? 0)%nat; [reflexivity|].
  destruct (index_search _ _ _) as [hits|e]; [|reflexivity].
  destruct (search_loop hits (documents self2) []) as [[refs|e] docs];
    reflexivity.
Qed.

(** C5: saving a store to two distinct paths and loading from them, into
    any store instance, gives a store with the same record sequence, the
    same identity index and the same vector index, and [search] returns the
    same ranked results on both for every query vector and [top_k]. *)
Theorem save_load_roundtrip (self fresh : SearchEngine)
    (index_path docs_path : string) (fs fs' : files) :
  index_path <> docs_path ->
  save_index self index_path docs_path fs = (Ok (), fs') ->
  exists loaded,
    load_index fresh index_path docs_path fs' = (Ok (), loaded) /\
    documents loaded = documents self /\
    doc_ids_to_indices loaded = doc_ids_to_indices self /\
    index loaded = index self /\
    forall q top_k,
      search_results loaded q top_k = search_results self q top_k.
Proof.
  intros Hne. unfold save_index.
  destruct (dirname_empty index_path); [discriminate|].
  destruct (dirname_empty docs_path); [discriminate|].
  intros [= <-]. unfold load_index.
  rewrite lookup_insert_ne by congruence.
  rewrite lookup_insert_eq, lookup_insert_eq.
  eexists. split; [reflexivity|]. simpl.
  repeat (split; [reflexivity|]).
  intros q top_k. apply search_results_ext; reflexivity.
Qed.

Lemma save_load_roundtrip_witness :
  let rec (id : string) (c : Z) (x y : Q) : document :=
    <["text" := VStr "t"]>
      (<["metadata" := VDict (<["doc_id" := AStr id]> {["chunk_id" := AInt c]})]>
         {["embedding" := VVec [x; y]]}) in
  let self := add_all (new_engine 2) [[rec "a" 0 0%Q 0%Q; rec "a" 1 3%Q 4%Q]] in
  let index_path := "data/index/faiss_index.bin" in
  let docs_path := "data/index/documents.pkl" in
  let fs' := (save_index self index_path docs_path ∅).2 in
  index_path <> docs_path /\
  save_index self index_path docs_path ∅ = (Ok (), fs') /\
  exists loaded,
    load_index (new_engine 7) index_path docs_path fs' = (Ok (), loaded) /\
    documents loaded = documents self /\
    search_results loaded [1; 1]%Q 5 = search_results self [1; 1]%Q 5.
Proof.
  intros rec self index_path docs_path fs'.
  assert (Hne : index_path <> docs_path) by discriminate.
  assert (Hsave : save_index self index_path docs_path ∅ = (Ok (), fs'))
    by reflexivity.
  split; [exact Hne|]. split; [exact Hsave|].
  destruct (save_load_roundtrip self (new_engine 7) index_path docs_path ∅ fs'
              Hne Hsave) as (loaded & Hload & Hdocs & _ & _ & Hsearch).
  exists loaded. split; [exact Hload|]. split; [exact Hdocs | apply Hsearch].
Defined.

(** ** Identity keys *)

Lemma mem_char_app (c : ascii) (s1 s2 : string) :
  mem_char c (s1 +:+ s2) = mem_char c s1 || mem_char c s2.
Proof.
  induction s1 as [|c' s1 IH]; simpl; [reflexivity|].
  rewrite IH, orb_assoc. reflexivity.
Qed.

Lemma pretty_N_go_underscore (x : N) :
  forall s, mem_char "_" s = false -> mem_char "_" (pretty_N_go x s) = false.
Proof.
  induction (N.lt_wf_0 x) as [x _ IH]; intros s Hs.
  destruct (decide (x = 0)%N) as [->|Hx]; [rewrite pretty_N_go_0; exact Hs|].
  rewrite pretty_N_go_step by lia. apply IH; [apply N.div_lt; lia|].
  simpl. rewrite Hs, orb_false_r. apply bool_decide_eq_false.
  unfold pretty_N_char. repeat case_match; discriminate.
Qed.

Lemma pretty_Z_underscore (z : Z) : mem_char "_" (pretty z) = false.
Proof.
  assert (HN : forall n : N, mem_char "_" (pretty n) = false).
  { intros n. unfold pretty, pretty_N. case_decide; [reflexivity|].
    apply pretty_N_go_underscore. reflexivity. }
  destruct z as [|x|x]; [reflexivity | apply (HN (Npos x)) |].
  change (pretty (Z.neg x)) with ("-" +:+ pretty (Npos x)).
  rewrite mem_char_app, (HN (Npos x)). reflexivity.
Qed.

Lemma underscore_split (a b p q : string) :
  mem_char "_" p = false -> mem_char "_" q = false ->
  a +:+ String "_" p = b +:+ String "_" q -> a = b /\ p = q.
Proof.
  intros Hp Hq. revert b. induction a as [|c a IH]; intros [|c' b] H; cbn in H.
  - injection H as H. split; [reflexivity | exact H].
  - exfalso. injection H as _ H. subst p. rewrite mem_char_app in Hp. cbn in Hp.
    rewrite bool_decide_eq_true_2, orb_true_r in Hp by reflexivity. discriminate.
  - exfalso. injection H as _ H. subst q. rewrite mem_char_app in Hq. cbn in Hq.
    rewrite bool_decide_eq_true_2, orb_true_r in Hq by reflexivity. discriminate.
  - injection H as -> H. destruct (IH b H) as [-> ->]. split; reflexivity.
Qed.

(** X7: The identity key ["{doc_id}_{chunk_id}"] of line 58 tells apart any two
    chunks named by a string document id and an integer chunk id: equal
    keys come from equal ids. *)
Theorem unique_id_inj (a b : string) (i j : Z) :
  unique_id (AStr a) (AInt i) = unique_id (AStr b) (AInt j) ->
  a = b /\ i = j.
Proof.
  unfold unique_id. cbn [py_str]. intros H.
  change ("_" +:+ pretty i) with (String "_" (pretty i)) in H.
  change ("_" +:+ pretty j) with (String "_" (pretty j)) in H.
  apply underscore_split in H as [-> H]; try apply pretty_Z_underscore.
  split; [reflexivity|]. apply (inj pretty). exact H.
Qed.

Lemma unique_id_inj_witness :
  unique_id (AStr "a_1") (AInt 23) = unique_id (AStr "a_1") (AInt 23) /\
  unique_id (AStr "a_1") (AInt 23) = "a_1_23" /\
  ("a_1" = "a_1" /\ 23 = 23).
Proof.
  split; [reflexivity|]. split; [reflexivity|].
  exact (unique_id_inj "a_1" "a_1" 23 23 eq_refl).
Defined.

Lemma key_of_stored (doc : document) :
  key_of (delete "embedding" doc) = key_of doc.
Proof.
  unfold key_of, metadata_get. rewrite lookup_delete_ne by discriminate.
  reflexivity.
Qed.

Lemma last_with_key_Some (k : string) (docs : list document) (j : nat) :
  last_with_key k docs = Some j ->
  exists doc, docs !! j = Some doc /\ key_of doc = Some k /\
    forall j' doc', (j < j')%nat -> docs !! j' = Some doc' -> key_of doc' <> Some k.
Proof.
  revert j. induction docs as [|doc0 docs IH]; intros j; simpl; [discriminate|].
  destruct (last_with_key k docs) as [j0|] eqn:Hlast.
  - intros [= <-]. destruct (IH j0 eq_refl) as (doc & Hj & Hk & Hlater).
    exists doc. split; [exact Hj|]. split; [exact Hk|].
    intros [|j'] doc' Hlt Hj'; [lia|]. apply (Hlater j'); [lia | exact Hj'].
  - case_bool_decide as Hk; [|discriminate]. intros [= <-].
    exists doc0. split; [reflexivity|]. split; [exact Hk|].
    intros [|j'] doc' Hlt Hj'; [lia|]. simpl in Hj'.
    intros Hk'. assert (Hin : k ∈ keys_of docs).
    { unfold keys_of. apply list_elem_of_omap. exists doc'.
      split; [apply list_elem_of_lookup; eauto | exact Hk']. }
    apply last_with_key_is_Some in Hin. rewrite Hlast in Hin.
    destruct Hin as [? [=]].
Qed.

Lemma last_with_key_None (k : string) (docs : list document) (j : nat)
    (doc : document) :
  last_with_key k docs = None -> docs !! j = Some doc -> key_of doc <> Some k.
Proof.
  intros Hlast Hj Hk. assert (Hin : k ∈ keys_of docs).
  { unfold keys_of. apply list_elem_of_omap. exists doc.
    split; [apply list_elem_of_lookup; eauto | exact Hk]. }
  apply last_with_key_is_Some in Hin. rewrite Hlast in Hin.
  destruct Hin as [? [=]].
Qed.

(** Entering the keys of [entered_docs] and appending [entered_docs]
    followed by records without a key keeps the identity index sound. *)
Lemma index_sound_step (self self' : SearchEngine)
    (entered_docs keyless : list document) :
  index_sound self ->
  documents self' =
    documents self ++ (delete "embedding" <$> (entered_docs ++ keyless)) ->
  Forall (fun doc => key_of doc = None) keyless ->
  entered (doc_ids_to_indices self) (length (documents self)) entered_docs
    (doc_ids_to_indices self') ->
  index_sound self'.
Proof.
  intros Hsound Hdocs Hkeyless Hent k p Hp. rewrite (Hent k) in Hp.
  assert (Hnew : forall j rec,
    documents self' !! (length (documents self) + j)%nat = Some rec ->
    exists doc, (entered_docs ++ keyless) !! j = Some doc /\ key_of rec = key_of doc).
  { intros j rec Hj. rewrite Hdocs, lookup_app_r in Hj by lia.
    replace (length (documents self) + j - length (documents self))%nat with j in Hj by lia.
    rewrite list_lookup_fmap in Hj.
    destruct ((entered_docs ++ keyless) !! j) as [doc|]; [|discriminate].
    injection Hj as <-. exists doc. split; [reflexivity | apply key_of_stored]. }
  assert (Hless : forall j doc, keyless !! j = Some doc -> key_of doc = None).
  { intros j doc Hj. rewrite Forall_forall in Hkeyless. apply Hkeyless.
    apply list_elem_of_lookup. eauto. }
  assert (Hsplit : forall p' rec', documents self' !! p' = Some rec' ->
    (p' < length (documents self))%nat /\ documents self !! p' = Some rec' \/
    exists j, p' = (length (documents self) + j)%nat).
  { intros p' rec' Hp'. destruct (decide (p' < length (documents self))%nat) as [Hlt|Hge].
    - left. split; [exact Hlt|]. rewrite Hdocs, lookup_app_l in Hp' by exact Hlt. exact Hp'.
    - right. exists (p' - length (documents self))%nat. lia. }
  destruct (last_with_key k entered_docs) as [j|] eqn:Hlast.
  - injection Hp as <-.
    destruct (last_with_key_Some _ _ _ Hlast) as (doc & Hj & Hk & Hlater).
    exists (delete "embedding" doc). split; [|split].
    + rewrite Hdocs, lookup_app_r by lia.
      replace (length (documents self) + j - length (documents self))%nat with j by lia.
      rewrite list_lookup_fmap, lookup_app_l by (eapply lookup_lt_Some; exact Hj).
      rewrite Hj. reflexivity.
    + rewrite key_of_stored. exact Hk.
    + intros p' rec' Hlt Hp'.
      destruct (Hsplit p' rec' Hp') as [[Hlt' _] | [j' ->]]; [lia|].
      destruct (Hnew j' rec' Hp') as (doc' & Hj' & ->).
      destruct (decide (j' < length entered_docs)%nat) as [Hin|Hout].
      * rewrite lookup_app_l in Hj' by exact Hin. apply (Hlater j'); [lia | exact Hj'].
      * rewrite lookup_app_r in Hj' by lia. rewrite (Hless _ _ Hj'). discriminate.
  - destruct (Hsound k p Hp) as (rec & Hrec & Hk & Hlater).
    exists rec. split; [|split; [exact Hk|]].
    + rewrite Hdocs, lookup_app_l by (eapply lookup_lt_Some; exact Hrec). exact Hrec.
    + intros p' rec' Hlt Hp'.
      destruct (Hsplit p' rec' Hp') as [[_ Hold] | [j' ->]];
        [apply (Hlater p' rec' Hlt Hold)|].
      destruct (Hnew j' rec' Hp') as (doc' & Hj' & ->).
      destruct (decide (j' < length entered_docs)%nat) as [Hin|Hout].
      * rewrite lookup_app_l in Hj' by exact Hin.
        apply (last_with_key_None k entered_docs j'); assumption.
      * rewrite lookup_app_r in Hj' by lia. rewrite (Hless _ _ Hj'). discriminate.
Qed.

Lemma add_documents_sound (self : SearchEngine) (docs : list document) :
  index_sound self -> index_sound (add_documents self docs).2.
Proof.
  intros Hsound. destruct (add_documents self docs) as [r self'] eqn:Hrun. simpl.
  destruct (add_documents_cases _ _ _ _ Hrun)
    as [(_ & _ & ->) | [(_ & _ & _ & ->) | (_ & _ & rows & _ & Hout)]];
    [exact Hsound | exact Hsound |].
  destruct Hout as (_ & _ & Hout). simpl in Hout. destruct r as [[]|e].
  - destruct Hout as (_ & Hd & Hent).
    apply (index_sound_step self self' docs []); try assumption.
    + rewrite app_nil_r. exact Hd.
    + constructor.
  - destruct Hout as (n & doc & Hn & Hnone & _ & Hd & Hent).
    apply (index_sound_step self self' (take n docs) [doc]); try assumption.
    + rewrite Hd. erewrite take_S_r by exact Hn. reflexivity.
    + constructor; [exact Hnone | constructor].
Qed.

(** X8: The identity index never dangles: after any sequence of
    [add_documents] calls on a new store, whatever the batches hold and
    whether the calls return or raise, every entry of the identity index
    names a stored record that carries the entry's key, and that record is
    the last one stored with the key. *)
Theorem identity_index_sound (dim : nat) (batches : list (list document)) :
  index_sound (add_all (new_engine dim) batches).
Proof.
  assert (H : forall self, index_sound self -> index_sound (add_all self batches)).
  { induction batches as [|docs batches IH]; intros self Hs; simpl; [exact Hs|].
    apply IH. apply add_documents_sound. exact Hs. }
  apply H. intros k p Hp. simpl in Hp. rewrite lookup_empty in Hp. discriminate.
Qed.

Lemma identity_index_sound_witness :
  let rec (c : Z) (x : Q) : document :=
    <["metadata" := VDict (<["doc_id" := AStr "a"]> {["chunk_id" := AInt c]})]>
      {["embedding" := VVec [x]]} in
  let bad : document := {["embedding" := VVec [9%Q]]} in
  let self := add_all (new_engine 1) [[rec 0 1%Q; rec 1 2%Q]; [rec 0 3%Q; bad]] in
  doc_ids_to_indices self !! "a_0" = Some 2%nat /\
  exists stored,
    documents self !! 2%nat = Some stored /\ key_of stored = Some "a_0".
Proof.
  intros rec bad self.
  assert (Hk : doc_ids_to_indices self !! "a_0" = Some 2%nat)
    by (vm_compute; reflexivity).
  split; [exact Hk|].
  destruct (identity_index_sound 1 [[rec 0 1%Q; rec 1 2%Q]; [rec 0 3%Q; bad]]
              "a_0" 2%nat Hk) as (stored & Hs & Hkey & _).
  exists stored. split; assumption.
Defined.

(** X9: A call of [add_documents] that returns has extended the vector index
    and the record list by one element per record of the batch, from any
    store state, so a store with as many records as vectors stays so; it
    changes no dimension and adds at most one identity entry per record. *)
Theorem add_documents_grows (self : SearchEngine) (docs : list document)
    (self' : SearchEngine) :
  add_documents self docs = (Ok (), self') ->
  ntotal (index self') = (ntotal (index self) + length docs)%nat /\
  length (documents self') = (length (documents self) + length docs)%nat /\
  d (index self') = d (index self) /\
  embedding_dim self' = embedding_dim self /\
  (size (doc_ids_to_indices self') <=
   size (doc_ids_to_indices self) + length docs)%nat.
Proof.
  intros Hrun.
  destruct (add_documents_cases _ _ _ _ Hrun)
    as [(-> & _ & ->) | [(_ & _ & [e [=]] & _) | (_ & _ & rows & H2 & Hout)]].
  - simpl. repeat split; lia.
  - destruct Hout as (Hix & Hdim & Hkeys & Hd & Hent). simpl in *.
    apply Forall2_length in H2.
    split; [unfold ntotal; rewrite Hix; simpl; rewrite length_app; lia|].
    split; [rewrite Hd, length_app, length_fmap; reflexivity|].
    split; [rewrite Hix; reflexivity|]. split; [exact Hdim|].
    rewrite <- !size_dom, (entered_dom _ _ _ _ Hent), size_union_alt.
    pose proof (size_list_to_set_le (keys_of docs)) as Hle.
    rewrite (keys_of_length docs Hkeys) in Hle.
    assert (Hs : list_to_set (keys_of docs) ∖ dom (doc_ids_to_indices self)
                 ⊆ (list_to_set (keys_of docs) : gset string))
      by (apply subseteq_difference_l; reflexivity).
    apply subseteq_size in Hs. lia.
Qed.

Lemma add_documents_grows_witness :
  let rec (c : Z) (x : Q) : document :=
    <["metadata" := VDict (<["doc_id" := AStr "a"]> {["chunk_id" := AInt c]})]>
      {["embedding" := VVec [x]]} in
  let self := (add_documents (new_engine 1) [rec 0 1%Q]).2 in
  let self' := (add_documents self [rec 0 2%Q; rec 1 3%Q]).2 in
  add_documents self [rec 0 2%Q; rec 1 3%Q] = (Ok (), self') /\
  ntotal (index self') = 3%nat /\ length (documents self') = 3%nat /\
  size (doc_ids_to_indices self') = 2%nat.
Proof.
  intros rec self self'.
  assert (Hrun : add_documents self [rec 0 2%Q; rec 1 3%Q] = (Ok (), self'))
    by (vm_compute; reflexivity).
  destruct (add_documents_grows self _ self' Hrun) as (Hn & Hl & _).
  split; [exact Hrun|]. split; [exact Hn|]. split; [exact Hl|].
  vm_compute. reflexivity.
Defined.

(** ** More on [search] *)

(** When the index can report every stored vector, the hits before the
    padding are as many as were asked for, or all there are. *)
Lemma index_search_count (ix : IndexFlatL2) (q : list Q) (k : Z)
    (hits : list (Q * Z)) :
  index_search ix q k = Ok hits ->
  exists best pad,
    hits = best ++ replicate pad (FLT_MAX, -1) /\
    NoDup best.*2 /\
    Forall (real_hit (ntotal ix)) best /\
    (Forall (fun x => is_Some (fvec_L2sqr q x)) (xb ix) ->
     length best = Nat.min (Z.to_nat k) (ntotal ix)).
Proof.
  intros Hhits. unfold index_search in Hhits.
  destruct (negb (length q =? d ix)%nat); [discriminate|].
  destruct (Z.leb_spec k 0); [discriminate|].
  change (omap id _) with (reported_from 0 q (xb ix)) in Hhits.
  set (found := reported_from 0 q (xb ix)) in *.
  set (sorted := merge_sort by_distance found) in *.
  injection Hhits as <-.
  assert (Hperm : sorted ≡ₚ found) by apply merge_sort_Permutation.
  exists (take (Z.to_nat k) sorted), (Z.to_nat k - length (take (Z.to_nat k) sorted))%nat.
  split; [reflexivity|].
  assert (Hlen : length sorted = length found) by apply (Permutation_length Hperm).
  rewrite <- (take_drop (Z.to_nat k) sorted) in Hperm.
  split; [|split].
  - assert (Hnd : NoDup found.*2) by apply reported_from_labels.
    rewrite <- Hperm, fmap_app in Hnd. apply NoDup_app in Hnd. tauto.
  - assert (Hall : Forall (real_hit (ntotal ix)) found).
    { apply Forall_forall. intros h Hh. apply (reported_real ix q h Hh). }
    rewrite <- Hperm in Hall. apply Forall_app in Hall. tauto.
  - intros Hall. rewrite length_take, Hlen. unfold found, ntotal.
    rewrite (reported_from_all q (xb ix) Hall). reflexivity.
Qed.

Lemma list_insert_as_alter {A} (f : A -> A) (l : list A) (i : nat) (x : A) :
  l !! i = Some x -> <[i := f x]> l = alter f i l.
Proof.
  intros Hi. apply list_eq. intros j. destruct (decide (i = j)) as [<-|Hne].
  - rewrite list_lookup_insert_eq by (eapply lookup_lt_Some; exact Hi).
    rewrite list_lookup_alter_eq, Hi. reflexivity.
  - rewrite list_lookup_insert_ne, list_lookup_alter_ne by exact Hne. reflexivity.
Qed.

Lemma write_score_length (docs : list document) (h : Q * Z) :
  length (write_score docs h) = length docs.
Proof. apply length_alter. Qed.

Lemma write_scores_length (best : list (Q * Z)) :
  forall docs, length (foldl write_score docs best) = length docs.
Proof.
  induction best as [|h best IH]; intros docs; simpl; [reflexivity|].
  rewrite IH. apply write_score_length.
Qed.

(** The result loop on hits that name stored records: it returns their
    positions and has written each score. *)
Lemma search_loop_fold (best : list (Q * Z)) :
  forall docs results,
    Forall (real_hit (length docs)) best ->
    search_loop best docs results =
    (Ok (results ++ (Z.to_nat <$> best.*2)), foldl write_score docs best).
Proof.
  induction best as [|[dist idx] best IH]; intros docs results Hreal; simpl.
  - rewrite app_nil_r. reflexivity.
  - inversion Hreal as [|? ? [_ Hidx] Hreal']; subst. simpl in Hidx.
    destruct (Z.eqb_spec idx (-1)); [lia|].
    rewrite (position_real docs idx) by (unfold len; lia).
    destruct (lookup_lt_is_Some_2 docs (Z.to_nat idx)) as [doc Hdoc]; [lia|].
    rewrite Hdoc.
    rewrite (list_insert_as_alter (insert "score" (VFloat (1 / (1 + dist)))) docs _ doc Hdoc).
    change (alter (insert "score" (VFloat (1 / (1 + dist)))) (Z.to_nat idx) docs)
      with (write_score docs (dist, idx)).
    rewrite IH by (rewrite write_score_length; exact Hreal').
    rewrite <- app_assoc. reflexivity.
Qed.

Lemma write_score_twice (docs : list document) (h : Q * Z) :
  write_score (write_score docs h) h = write_score docs h.
Proof.
  unfold write_score. rewrite list_alter_alter_eq.
  apply list_alter_ext; [|reflexivity]. intros doc _. simpl.
  apply insert_insert_eq.
Qed.

Lemma write_score_commute (best : list (Q * Z)) (h : Q * Z) :
  0 <= h.2 -> Forall (fun g => 0 <= g.2) best -> h.2 ∉ best.*2 ->
  forall docs,
    write_score (foldl write_score docs best) h =
    foldl write_score (write_score docs h) best.
Proof.
  intros Hh. induction best as [|g best IH]; intros Hpos Hfresh docs; simpl;
    [reflexivity|].
  inversion Hpos as [|? ? Hg Hpos']; subst.
  rewrite fmap_cons in Hfresh. apply not_elem_of_cons in Hfresh as [Hne Hfresh].
  rewrite (IH Hpos' Hfresh). f_equal. unfold write_score.
  apply list_alter_alter_ne. intros Heq. apply Hne.
  apply Z2Nat.inj; assumption.
Qed.

Lemma write_scores_twice (best : list (Q * Z)) :
  Forall (fun g => 0 <= g.2) best -> NoDup best.*2 ->
  forall docs,
    foldl write_score (foldl write_score docs best) best =
    foldl write_score docs best.
Proof.
  induction best as [|h best IH]; intros Hpos Hnd docs; simpl; [reflexivity|].
  inversion Hpos as [|? ? Hh Hpos']; subst.
  rewrite fmap_cons in Hnd. apply NoDup_cons in Hnd as [Hfresh Hnd].
  rewrite (write_score_commute best h Hh Hpos' Hfresh), write_score_twice.
  apply IH; assumption.
Qed.

(** A returning call of [search], in full: the hits of the index name
    stored records, the references are their labels and the record list has
    each score written. *)
Lemma search_run (self : SearchEngine) (q : list Q) (top_k : Z)
    (refs : list nat) (self' : SearchEngine) :
  search self q top_k = (Ok refs, self') ->
  documents self <> [] ->
  exists best pad,
    index_search (index self) q (Z.min top_k (len (documents self))) =
      Ok (best ++ replicate pad (FLT_MAX, -1)) /\
    (Forall (fun x => is_Some (fvec_L2sqr q x)) (xb (index self)) ->
     length best =
       Nat.min (Z.to_nat (Z.min top_k (len (documents self)))) (ntotal (index self))) /\
    NoDup best.*2 /\
    Forall (real_hit (length (documents self))) best /\
    refs = Z.to_nat <$> best.*2 /\
    self' = set_documents self (foldl write_score (documents self) best).
Proof.
  intros Hrun Hne. unfold search in Hrun.
  destruct (length (documents self) =? 0)%nat eqn:Hempty.
  { apply Nat.eqb_eq in Hempty. destruct (documents self); [congruence | discriminate]. }
  destruct (index_search (index self) q _) as [hits|] eqn:Hhits;
    [|discriminate].
  destruct (index_search_count _ _ _ _ Hhits) as (best & pad & -> & Hnd & Hreal & Hlen).
  exists best, pad. split; [reflexivity|].
  split; [exact Hlen|]. split; [exact Hnd|].
  rewrite search_loop_app in Hrun.
  destruct (search_loop best (documents self) []) as [[refs1|e] docs1] eqn:Hloop;
    [|discriminate].
  rewrite search_loop_padding in Hrun. injection Hrun as <- <-.
  assert (Hpos : Forall (fun h => 0 <= h.2) best).
  { eapply Forall_impl; [exact Hreal|]. intros h [_ H]. lia. }
  destruct (search_loop_scores best _ _ _ _ Hloop Hpos Hnd) as (_ & Hlen' & Hall & _).
  assert (Hin : Forall (real_hit (length (documents self))) best).
  { rewrite Forall_forall in *. intros h Hh.
    destruct (Hreal h Hh) as [Hd Hl]. destruct (Hall h Hh) as (doc & Hdoc & _).
    apply lookup_lt_Some in Hdoc. split; [exact Hd | lia]. }
  rewrite (search_loop_fold best (documents self) [] Hin) in Hloop.
  injection Hloop as <- <-. split; [exact Hin|]. split; reflexivity.
Qed.

(** ** Coordinates of moderate size *)

Lemma sq_diff_bound (B a b : Q) :
  (- B <= a)%Q -> (a <= B)%Q -> (- B <= b)%Q -> (b <= B)%Q ->
  ((a - b) * (a - b) <= 4 * (B * B))%Q.
Proof.
  intros Ha1 Ha2 Hb1 Hb2.
  assert (H : (0 <= (2 * B - (a - b)) * (2 * B + (a - b)))%Q)
    by (apply Qmult_le_0_compat; lra).
  assert (E : ((2 * B - (a - b)) * (2 * B + (a - b)) ==
               4 * (B * B) - (a - b) * (a - b))%Q) by ring.
  rewrite E in H. lra.
Qed.

Lemma sq_dist_bound (B : Q) (q : list Q) :
  bounded B q ->
  forall x, bounded B x ->
    (sq_dist q x <= inject_Z (Z.of_nat (length q)) * (4 * (B * B)))%Q.
Proof.
  unfold sq_dist. induction 1 as [|a q [Ha1 Ha2] _ IH]; intros x Hx.
  - change (0 <= 0 * (4 * (B * B)))%Q. rewrite Qmult_0_l. apply Qle_refl.
  - assert (H0 : (0 <= 4 * (B * B))%Q).
    { pose proof (sq_diff_bound B a a Ha1 Ha2 Ha1 Ha2) as H.
      assert (E : ((a - a) * (a - a) == 0)%Q) by ring. rewrite E in H. exact H. }
    assert (Hn : (0 <= inject_Z (Z.of_nat (length q)))%Q).
    { change 0%Q with (inject_Z 0). rewrite <- Zle_Qle. lia. }
    assert (ES : (inject_Z (Z.of_nat (length (a :: q))) * (4 * (B * B)) ==
                  4 * (B * B) + inject_Z (Z.of_nat (length q)) * (4 * (B * B)))%Q).
    { cbn [length]. rewrite Nat2Z.inj_succ. unfold Z.succ. rewrite inject_Z_plus. ring. }
    rewrite ES.
    destruct Hx as [|b x [Hb1 Hb2] Hx]; simpl.
    + pose proof (Qmult_le_0_compat _ _ Hn H0). lra.
    + pose proof (sq_diff_bound B a b Ha1 Ha2 Hb1 Hb2).
      pose proof (IH x Hx). simpl in *. lra.
Qed.

Lemma bound_in_range (B n : Q) :
  (0 <= B)%Q -> (1 <= n)%Q -> (8 * n * (B * B) <= FLT_MAX)%Q -> (B <= FLT_MAX)%Q.
Proof.
  intros HB Hn H.
  destruct (Qlt_le_dec 1 B) as [H1|H1].
  - assert (Ha : (0 <= (B - 1) * B)%Q) by (apply Qmult_le_0_compat; lra).
    assert (Ea : ((B - 1) * B == B * B - B)%Q) by ring. rewrite Ea in Ha.
    assert (Hb : (0 <= (8 * n - 1) * (B * B))%Q)
      by (apply Qmult_le_0_compat; lra).
    assert (Eb : ((8 * n - 1) * (B * B) == 8 * n * (B * B) - B * B)%Q) by ring.
    rewrite Eb in Hb. lra.
  - unfold FLT_MAX. lra.
Qed.

Lemma bounded_finite (B : Q) (v : list Q) :
  (B <= FLT_MAX)%Q -> bounded B v -> forallb finite v = true.
Proof.
  intros HB. induction 1 as [|c v [H1 H2] _ IH]; [reflexivity|].
  simpl. rewrite IH. unfold finite.
  assert (Hlo : Qle_bool (- FLT_MAX) c = true) by (apply Qle_bool_iff; lra).
  assert (Hhi : Qle_bool c FLT_MAX = true) by (apply Qle_bool_iff; lra).
  rewrite Hlo, Hhi. reflexivity.
Qed.

(** Coordinates of moderate size keep every squared distance well inside
    the range of float32, so the index reports the vector. *)
Lemma bounded_reported (B : Q) (q x : list Q) :
  q <> [] -> bounded B q -> bounded B x ->
  (8 * inject_Z (Z.of_nat (length q)) * (B * B) <= FLT_MAX)%Q ->
  is_Some (fvec_L2sqr q x).
Proof.
  intros Hq Hbq Hbx Hsmall.
  assert (HB : (0 <= B)%Q).
  { destruct Hbq as [|c q [H1 H2] _]; [congruence | lra]. }
  assert (Hn : (1 <= inject_Z (Z.of_nat (length q)))%Q).
  { change 1%Q with (inject_Z 1). rewrite <- Zle_Qle.
    destruct q; [congruence | simpl; lia]. }
  assert (Hrange : (B <= FLT_MAX)%Q) by (eapply bound_in_range; eassumption).
  pose proof (sq_dist_bound B q Hbq x Hbx) as Hdist.
  pose proof (sq_dist_nonneg q x) as H0.
  unfold fvec_L2sqr.
  rewrite (bounded_finite B q Hrange Hbq), (bounded_finite B x Hrange Hbx). simpl.
  destruct (Qle_bool FLT_MAX (sq_dist q x)) eqn:Hle; [|eauto].
  exfalso. apply Qle_bool_iff in Hle.
  assert (Hpos : (0 < FLT_MAX)%Q) by (unfold FLT_MAX; lra).
  assert (E : (8 * inject_Z (Z.of_nat (length q)) * (B * B) ==
               2 * (inject_Z (Z.of_nat (length q)) * (4 * (B * B))))%Q) by ring.
  rewrite E in Hsmall. lra.
Qed.

(** X10: On a store that holds as many records as vectors, a query of the
    index's dimension [d] with [top_k >= 1] is answered with exactly
    [min(top_k, recordCount)] results, all of them different stored
    records, when the coordinates of the query and of the stored vectors
    are of moderate size: at most [B] in absolute value, with
    [8 * d * B * B <= FLT_MAX], which keeps every squared distance, at most
    [4 * d * B * B], away from the end of the range of float32. (Beyond the
    range the index reports fewer.) *)
Theorem search_count (self : SearchEngine) (q : list Q) (top_k : Z) (B : Q) :
  1 <= top_k ->
  q <> [] ->
  length q = d (index self) ->
  ntotal (index self) = length (documents self) ->
  bounded B q ->
  Forall (bounded B) (xb (index self)) ->
  (8 * inject_Z (Z.of_nat (d (index self))) * (B * B) <= FLT_MAX)%Q ->
  exists refs self',
    search self q top_k = (Ok refs, self') /\
    Z.of_nat (length refs) = Z.min top_k (len (documents self)) /\
    NoDup refs /\
    Forall (fun i => (i < length (documents self))%nat) refs.
Proof.
  intros Hk Hq Hdim Hinv Hbq Hbx Hsmall.
  assert (Hall : Forall (fun x => is_Some (fvec_L2sqr q x)) (xb (index self))).
  { eapply Forall_impl; [exact Hbx|]. intros x Hx.
    apply (bounded_reported B); [assumption..|]. rewrite Hdim. exact Hsmall. }
  destruct (documents self) as [|doc0 docs0] eqn:Hdocs.
  { exists [], self. unfold search. rewrite Hdocs. simpl.
    split; [reflexivity|]. split; [unfold len; simpl; lia|].
    split; constructor. }
  assert (Hne : documents self <> []) by (rewrite Hdocs; discriminate).
  rewrite <- Hdocs in *.
  assert (Hret : exists refs self', search self q top_k = (Ok refs, self')).
  { unfold search.
    destruct (length (documents self) =? 0)%nat eqn:Hempty; [eauto|].
    destruct (index_search (index self) q _) as [hits|e] eqn:Hhits.
    - apply index_search_spec in Hhits as (best & pad & -> & _ & _ & _ & Hreal & _).
      rewrite search_loop_app. rewrite Hinv in Hreal.
      destruct (search_loop_returns best (documents self) [] Hreal)
        as (refs & docs' & ->).
      rewrite search_loop_padding. eauto.
    - exfalso. unfold index_search in Hhits.
      rewrite Hdim, Nat.eqb_refl in Hhits. simpl in Hhits.
      apply Nat.eqb_neq in Hempty.
      destruct (Z.leb_spec (Z.min top_k (len (documents self))) 0);
        [unfold len in *; lia | discriminate]. }
  destruct Hret as (refs & self' & Hrun). exists refs, self'.
  split; [exact Hrun|].
  destruct (search_run _ _ _ _ _ Hrun Hne)
    as (best & pad & _ & Hlen & Hnd & Hreal & -> & _).
  specialize (Hlen Hall).
  split; [|split].
  - rewrite !length_fmap, Hlen, Hinv. unfold len. lia.
  - apply NoDup_fmap_2_strong; [|exact Hnd].
    intros x y Hx Hy Heq. rewrite Forall_forall in Hreal.
    assert (Hx' : exists h, h ∈ best /\ h.2 = x)
      by (apply list_elem_of_fmap in Hx as (h & -> & Hh); eauto).
    assert (Hy' : exists h, h ∈ best /\ h.2 = y)
      by (apply list_elem_of_fmap in Hy as (h & -> & Hh); eauto).
    destruct Hx' as (hx & Hhx & <-). destruct Hy' as (hy & Hhy & <-).
    destruct (Hreal hx Hhx) as [_ ?]. destruct (Hreal hy Hhy) as [_ ?].
    apply Z2Nat.inj; lia.
  - apply Forall_fmap, Forall_fmap. eapply Forall_impl; [exact Hreal|].
    intros h [_ Hh]. simpl. lia.
Qed.

Lemma search_count_witness :
  let rec (id : string) (c : Z) (x y : Q) : document :=
    <["metadata" := VDict (<["doc_id" := AStr id]> {["chunk_id" := AInt c]})]>
      {["embedding" := VVec [x; y]]} in
  let self :=
    add_all (new_engine 2)
      [[rec "a" 0 0%Q 0%Q; rec "a" 1 3%Q 4%Q; rec "a" 2 1%Q 0%Q];
       [rec "b" 0 1%Q 1%Q; rec "b" 1 9%Q 9%Q]] in
  let q := [1; 1]%Q in
  let B := 9%Q in
  1 <= 10 /\ q <> [] /\ length q = d (index self) /\
  ntotal (index self) = length (documents self) /\
  bounded B q /\ Forall (bounded B) (xb (index self)) /\
  (8 * inject_Z (Z.of_nat (d (index self))) * (B * B) <= FLT_MAX)%Q /\
  exists refs self',
    search self q 10 = (Ok refs, self') /\ length refs = 5%nat.
Proof.
  intros rec self q B.
  assert (Hk : 1 <= 10) by lia.
  assert (Hq : q <> []) by discriminate.
  assert (Hdim : length q = d (index self)) by (vm_compute; reflexivity).
  assert (Hinv : ntotal (index self) = length (documents self))
    by (vm_compute; reflexivity).
  assert (Hbq : bounded B q).
  { repeat constructor; vm_compute; discriminate. }
  assert (Hbx : Forall (bounded B) (xb (index self))).
  { let rows := eval vm_compute in (xb (index self)) in
    change (xb (index self)) with rows.
    repeat constructor; vm_compute; discriminate. }
  assert (Hsmall : (8 * inject_Z (Z.of_nat (d (index self))) * (B * B) <= FLT_MAX)%Q)
    by (vm_compute; discriminate).
  split; [exact Hk|]. split; [exact Hq|]. split; [exact Hdim|].
  split; [exact Hinv|]. split; [exact Hbq|]. split; [exact Hbx|].
  split; [exact Hsmall|].
  destruct (search_count self q 10 B Hk Hq Hdim Hinv Hbq Hbx Hsmall)
    as (refs & self' & Hrun & Hlen & _).
  exists refs, self'. split; [exact Hrun|].
  assert (Hfive : Z.min 10 (len (documents self)) = 5) by (vm_compute; reflexivity).
  lia.
Defined.

(** X11: [search] is idempotent on the store: asking the same question again
    returns the same references and leaves the store as the first call
    left it (the scores written by the first call are written again). *)
Theorem search_idempotent (self : SearchEngine) (q : list Q) (top_k : Z)
    (refs : list nat) (self' : SearchEngine) :
  search self q top_k = (Ok refs, self') ->
  search self' q top_k = (Ok refs, self').
Proof.
  intros Hrun. destruct (documents self) as [|doc0 docs0] eqn:Hdocs.
  { unfold search in Hrun. rewrite Hdocs in Hrun. simpl in Hrun.
    injection Hrun as <- <-. unfold search. rewrite Hdocs. reflexivity. }
  assert (Hne : documents self <> []) by (rewrite Hdocs; discriminate).
  clear Hdocs.
  destruct (search_run _ _ _ _ _ Hrun Hne)
    as (best & pad & Hhits & _ & Hnd & Hreal & -> & ->).
  set (docs' := foldl write_score (documents self) best).
  assert (Hlen : length docs' = length (documents self))
    by apply write_scores_length.
  unfold search. simpl. fold docs'. rewrite Hlen.
  destruct (length (documents self) =? 0)%nat eqn:Hempty.
  { apply Nat.eqb_eq in Hempty. destruct (documents self); [congruence | discriminate]. }
  unfold len in *. rewrite Hlen, Hhits, search_loop_app.
  rewrite (search_loop_fold best docs' []) by (rewrite Hlen; exact Hreal).
  rewrite search_loop_padding. simpl.
  assert (Hpos : Forall (fun h => 0 <= h.2) best).
  { eapply Forall_impl; [exact Hreal|]. intros h [_ H]. lia. }
  unfold docs'. rewrite (write_scores_twice best Hpos Hnd). reflexivity.
Qed.

Lemma search_idempotent_witness :
  let rec (id : string) (c : Z) (x y : Q) : document :=
    <["metadata" := VDict (<["doc_id" := AStr id]> {["chunk_id" := AInt c]})]>
      {["embedding" := VVec [x; y]]} in
  let self := add_all (new_engine 2) [[rec "a" 0 0%Q 0%Q; rec "a" 1 3%Q 4%Q]] in
  let q := [1; 1]%Q in
  let self' := (search self q 1).2 in
  search self q 1 = (Ok [0%nat], self') /\
  search self' q 1 = (Ok [0%nat], self').
Proof.
  intros rec self q self'.
  assert (Hrun : search self q 1 = (Ok [0%nat], self')) by (vm_compute; reflexivity).
  split; [exact Hrun|].
  exact (search_idempotent self q 1 [0%nat] self' Hrun).
Defined.

(** X12: What [search] refuses: on an empty store it returns the empty list for
    every query and every [top_k]; on a store with records, a query whose
    length is not the index's dimension, or a [top_k] that is not positive,
    makes it raise with the store untouched. *)
Theorem search_guards (self : SearchEngine) (q : list Q) (top_k : Z) :
  (documents self = [] -> search self q top_k = (Ok [], self)) /\
  (documents self <> [] ->
   top_k <= 0 \/ length q <> d (index self) ->
   exists e, search self q top_k = (Raise e, self)).
Proof.
  split.
  - intros Hdocs. unfold search. rewrite Hdocs. reflexivity.
  - intros Hne Hbad. unfold search.
    destruct (length (documents self) =? 0)%nat eqn:Hempty.
    { apply Nat.eqb_eq in Hempty. destruct (documents self); [congruence | discriminate]. }
    unfold index_search.
    destruct (length q =? d (index self))%nat eqn:Hdim; simpl; [|eauto].
    apply Nat.eqb_eq in Hdim. destruct Hbad as [Hk|Hd]; [|congruence].
    destruct (Z.leb_spec (Z.min top_k (len (documents self))) 0); [eauto | lia].
Qed.

Lemma search_guards_witness :
  let rec0 : document :=
    <["metadata" := VDict (<["doc_id" := AStr "a"]> {["chunk_id" := AInt 0]})]>
      {["embedding" := VVec [1%Q; 2%Q]]} in
  let self := (add_documents (new_engine 2) [rec0]).2 in
  documents (new_engine 2) = [] /\
  search (new_engine 2) [1%Q] (-3) = (Ok [], new_engine 2) /\
  documents self <> [] /\
  (5 <= 0 \/ length [1%Q] <> d (index self)) /\
  exists e, search self [1%Q] 5 = (Raise e, self).
Proof.
  intros rec0 self.
  assert (Hne : documents self <> []) by (vm_compute; discriminate).
  assert (Hbad : 5 <= 0 \/ length [1%Q] <> d (index self))
    by (right; vm_compute; discriminate).
  split; [reflexivity|].
  split; [exact (proj1 (search_guards (new_engine 2) [1%Q] (-3)) eq_refl)|].
  split; [exact Hne|]. split; [exact Hbad|].
  exact (proj2 (search_guards self [1%Q] 5) Hne Hbad).
Defined.

(** ** [save_index], [load_index] and [__init__], further *)

Lemma dirname_not_empty (path : string) :
  dirname_empty path = false -> path <> "".
Proof. intros H ->. discriminate H. Qed.

(** X14: Saving both artifacts to one path loses the index: the records file
    overwrites it, and loading from that path raises, leaving the store it
    was called on untouched. *)
Theorem save_same_path (self fresh : SearchEngine) (path : string)
    (fs fs' : files) :
  save_index self path path fs = (Ok (), fs') ->
  load_index fresh path path fs' = (Raise RuntimeError, fresh).
Proof.
  unfold save_index. destruct (dirname_empty path); [discriminate|].
  intros [= <-]. unfold load_index. rewrite lookup_insert_eq. reflexivity.
Qed.

Lemma save_same_path_witness :
  let self := new_engine 3 in
  let fs' := (save_index self "data/store.bin" "data/store.bin" ∅).2 in
  save_index self "data/store.bin" "data/store.bin" ∅ = (Ok (), fs') /\
  load_index (new_engine 3) "data/store.bin" "data/store.bin" fs' =
    (Raise RuntimeError, new_engine 3).
Proof.
  intros self fs'.
  assert (Hsave : save_index self "data/store.bin" "data/store.bin" ∅ = (Ok (), fs'))
    by reflexivity.
  split; [exact Hsave|].
  exact (save_same_path self (new_engine 3) "data/store.bin" ∅ fs' Hsave).
Defined.

(** X15: [load_index] is not atomic. When it raises, the identity index and
    the configured dimension are as before, and the vector index has
    already been replaced if the index file could be read, while nothing
    has changed if it could not. The records are as before unless the
    records file holds a dictionary with the key ['documents'] and without
    the key ['doc_ids_to_indices']: then line 128 has replaced them before
    line 129 raises. *)
Theorem load_index_failure (self : SearchEngine) (index_path docs_path : string)
    (fs : files) (e : exn) (self' : SearchEngine) :
  load_index self index_path docs_path fs = (Raise e, self') ->
  doc_ids_to_indices self' = doc_ids_to_indices self /\
  embedding_dim self' = embedding_dim self /\
  (forall ix, fs !! index_path = Some (IndexBlob ix) -> index self' = ix) /\
  ((forall ix, fs !! index_path <> Some (IndexBlob ix)) -> self' = self) /\
  (forall ix docs,
     fs !! index_path = Some (IndexBlob ix) ->
     fs !! docs_path = Some (PickleBlob (Some docs) None) ->
     documents self' = docs) /\
  ((forall docs, fs !! docs_path <> Some (PickleBlob (Some docs) None)) ->
   documents self' = documents self).
Proof.
  unfold load_index.
  destruct (fs !! index_path) as [[ix|docs ids|]|] eqn:Hix;
    [|intros [= <- <-]; repeat split; (intros; congruence) ..].
  destruct (fs !! docs_path) as [[ix'|[docs|] [ids|]|]|]; intros [= <- <-];
    (split; [reflexivity|]); (split; [reflexivity|]);
    (split; [intros ix0 [= <-]; reflexivity|]);
    (split; [intros Hno; exfalso; exact (Hno ix eq_refl)|]);
    (split; [intros ix0 docs0 _ [=]; subst; reflexivity|]);
    intros Hno; try reflexivity.
  exfalso. exact (Hno docs eq_refl).
Qed.

Lemma load_index_failure_witness :
  let rec0 : document := {["text" := VStr "t"]} in
  let self := new_engine 3 in
  let ix := {| d := 2; xb := [[1%Q; 2%Q]] |} in
  let fs : files :=
    <["data/docs.pkl" := PickleBlob (Some [rec0]) None]>
      {["data/index.bin" := IndexBlob ix]} in
  let self' := (load_index self "data/index.bin" "data/docs.pkl" fs).2 in
  load_index self "data/index.bin" "data/docs.pkl" fs = (Raise KeyError, self') /\
  fs !! "data/index.bin" = Some (IndexBlob ix) /\
  fs !! "data/docs.pkl" = Some (PickleBlob (Some [rec0]) None) /\
  documents self = [] /\ documents self' = [rec0] /\
  doc_ids_to_indices self' = ∅ /\ index self' = ix.
Proof.
  intros rec0 self ix fs self'.
  assert (Hrun : load_index self "data/index.bin" "data/docs.pkl" fs =
                 (Raise KeyError, self')) by reflexivity.
  assert (Hix : fs !! "data/index.bin" = Some (IndexBlob ix)) by reflexivity.
  assert (Hpk : fs !! "data/docs.pkl" = Some (PickleBlob (Some [rec0]) None))
    by reflexivity.
  destruct (load_index_failure self _ _ fs _ self' Hrun)
    as (Hids & _ & Hi & _ & Hd & _).
  split; [exact Hrun|]. split; [exact Hix|]. split; [exact Hpk|].
  split; [reflexivity|]. split; [exact (Hd ix [rec0] Hix Hpk)|].
  split; [exact Hids | exact (Hi ix Hix)].
Defined.



(** X17: A store saved to two distinct paths is what a constructor given those
    paths starts with: the same records, identity index and vector index.
    The new object keeps the dimension it was constructed with, while its
    index keeps the dimension of the saved one. *)
Theorem init_after_save (self : SearchEngine) (embedding_dim' : nat)
    (index_path docs_path : string) (fs fs' : files) :
  index_path <> docs_path ->
  save_index self index_path docs_path fs = (Ok (), fs') ->
  exists loaded,
    __init__ embedding_dim' (Some index_path) (Some docs_path) fs' = Ok loaded /\
    documents loaded = documents self /\
    doc_ids_to_indices loaded = doc_ids_to_indices self /\
    index loaded = index self /\
    embedding_dim loaded = embedding_dim'.
Proof.
  intros Hne. unfold save_index.
  destruct (dirname_empty index_path) eqn:Hi; [discriminate|].
  destruct (dirname_empty docs_path) eqn:Hd; [discriminate|].
  intros [= <-]. unfold __init__, truthy, path_exists, load_index.
  apply dirname_not_empty in Hi, Hd.
  apply String.eqb_neq in Hi, Hd. rewrite Hi, Hd.
  rewrite lookup_insert_ne by congruence.
  rewrite !lookup_insert_eq.
  rewrite !bool_decide_eq_true_2 by eauto. simpl.
  eexists. split; [reflexivity|]. repeat split.
Qed.

Lemma init_after_save_witness :
  let rec0 : document :=
    <["metadata" := VDict (<["doc_id" := AStr "a"]> {["chunk_id" := AInt 0]})]>
      {["embedding" := VVec [1%Q; 2%Q]]} in
  let self := (add_documents (new_engine 2) [rec0]).2 in
  let fs' := (save_index self "data/index.bin" "data/docs.pkl" ∅).2 in
  "data/index.bin" <> "data/docs.pkl" /\
  save_index self "data/index.bin" "data/docs.pkl" ∅ = (Ok (), fs') /\
  exists loaded,
    __init__ 384 (Some "data/index.bin") (Some "data/docs.pkl") fs' = Ok loaded /\
    documents loaded = documents self /\
    d (index loaded) = 2%nat /\ embedding_dim loaded = 384%nat.
Proof.
  intros rec0 self fs'.
  assert (Hne : "data/index.bin" <> "data/docs.pkl") by discriminate.
  assert (Hsave : save_index self "data/index.bin" "data/docs.pkl" ∅ = (Ok (), fs'))
    by reflexivity.
  split; [exact Hne|]. split; [exact Hsave|].
  destruct (init_after_save self 384 _ _ ∅ fs' Hne Hsave)
    as (loaded & Hinit & Hdocs & _ & Hix & Hdim).
  exists loaded. split; [exact Hinit|]. split; [exact Hdocs|].
  split; [rewrite Hix; reflexivity | exact Hdim].
Defined.

End StoreFacts.

(** * The listing endpoint, verified *)

Module RoutesFacts.
Import Py Store Routes.

Lemma occurrences_snoc (a b : atom) (seen : list atom) :
  occurrences a (seen ++ [b]) =
  occurrences a seen + (if decide (b = a) then 1 else 0).
Proof.
  unfold occurrences, len. rewrite filter_app, length_app.
  rewrite filter_cons, filter_nil. destruct (decide (b = a)); simpl; lia.
Qed.

Lemma occurrences_absent (a : atom) (seen : list atom) :
  a ∉ seen -> occurrences a seen = 0.
Proof.
  unfold occurrences, len. induction seen as [|b seen IH]; intros Ha; [reflexivity|].
  apply not_elem_of_cons in Ha as [Hne Ha]. rewrite filter_cons.
  destruct (decide (b = a)); [congruence | apply IH, Ha].
Qed.

Lemma count_chunk_keys (u : unique_docs) (a : atom) : (count_chunk u a).*1 = u.*1.
Proof.
  unfold count_chunk. rewrite <- list_fmap_compose. apply list_fmap_ext.
  intros i [b r] _. simpl. destruct (decide (b = a)); reflexivity.
Qed.

Lemma count_chunk_absent (u : unique_docs) (a : atom) :
  a ∉ u.*1 -> count_chunk u a = u.
Proof.
  unfold count_chunk. induction u as [|[b r] u IH]; intros Ha; [reflexivity|].
  rewrite fmap_cons in Ha. apply not_elem_of_cons in Ha as [Hne Ha].
  rewrite fmap_cons. simpl in *. destruct (decide (b = a)); [congruence|].
  f_equal. apply IH. exact Ha.
Qed.

Lemma count_chunk_total (u : unique_docs) (a : atom) :
  NoDup u.*1 -> a ∈ u.*1 ->
  total_chunks (count_chunk u a).*2 = total_chunks u.*2 + 1.
Proof.
  induction u as [|[b r] u IH]; intros Hnd Ha; [inversion Ha|].
  rewrite fmap_cons in Hnd, Ha. apply NoDup_cons in Hnd as [Hfresh Hnd].
  simpl in Hfresh, Ha. unfold count_chunk. rewrite !fmap_cons. simpl.
  destruct (decide (b = a)) as [->|Hne]; simpl.
  - fold (count_chunk u a). rewrite (count_chunk_absent u a Hfresh). lia.
  - fold (count_chunk u a). apply elem_of_cons in Ha as [->|Ha]; [congruence|].
    rewrite (IH Hnd Ha). lia.
Qed.

Lemma groups_count (u : unique_docs) (seen : list atom) (a : atom) :
  groups u seen -> a ∈ u.*1 -> groups (count_chunk u a) (seen ++ [a]).
Proof.
  intros (Hnd & Hdom & Hcnt) Ha. split; [|split].
  - rewrite count_chunk_keys. exact Hnd.
  - intros b. rewrite count_chunk_keys, elem_of_app, list_elem_of_singleton, Hdom.
    split; [tauto|]. intros [H | ->]; [exact H | apply Hdom, Ha].
  - unfold count_chunk. apply Forall_fmap. eapply Forall_impl; [exact Hcnt|].
    intros [b r] Hb. simpl in *. rewrite occurrences_snoc.
    destruct (decide (b = a)) as [->|Hne]; simpl.
    + rewrite decide_True by reflexivity. lia.
    + rewrite decide_False by congruence. lia.
Qed.

Lemma groups_new (u : unique_docs) (seen : list atom) (a : atom) (r : row) :
  groups u seen -> a ∉ u.*1 -> chunks r = 0 ->
  groups (count_chunk (u ++ [(a, r)]) a) (seen ++ [a]).
Proof.
  intros (Hnd & Hdom & Hcnt) Ha Hr.
  assert (Hzero : occurrences a seen = 0).
  { apply occurrences_absent. intros Hin. apply Ha, Hdom, Hin. }
  split; [|split].
  - rewrite count_chunk_keys, fmap_app. apply NoDup_app. split; [exact Hnd|].
    split; [|apply NoDup_singleton].
    intros b Hb Hb'. apply list_elem_of_singleton in Hb'. simpl in Hb'. congruence.
  - intros b. rewrite count_chunk_keys, fmap_app, !elem_of_app, Hdom. reflexivity.
  - unfold count_chunk. rewrite fmap_app. apply Forall_app. split.
    + apply Forall_fmap. rewrite Forall_forall in *. intros [b r'] He. simpl.
      assert (Hne : b <> a).
      { intros ->. apply Ha. apply list_elem_of_fmap. exists (a, r'). auto. }
      specialize (Hcnt _ He). simpl in Hcnt.
      rewrite decide_False by exact Hne. simpl.
      rewrite occurrences_snoc, decide_False by congruence. lia.
    + simpl. constructor; [|constructor]. simpl.
      rewrite decide_True by reflexivity. simpl.
      rewrite occurrences_snoc, decide_True by reflexivity. lia.
Qed.

(** What the loop of lines 165-176 has built when it ends without an
    exception. *)
Lemma group_loop_groups (docs : list document) :
  forall u seen u',
    groups u seen -> total_chunks u.*2 = len seen ->
    group_loop docs u = Ok u' ->
    groups u' (seen ++ doc_ids docs) /\
    total_chunks u'.*2 = len seen + len docs /\
    length (doc_ids docs) = length docs.
Proof.
  induction docs as [|doc docs IH]; intros u seen u' Hg Htot Hrun; simpl in Hrun.
  - injection Hrun as <-. simpl. rewrite app_nil_r.
    split; [exact Hg|]. split; [unfold len in *; simpl; lia | reflexivity].
  - unfold doc_ids. simpl.
    destruct (metadata_get doc "doc_id") as [a|e] eqn:Ha; [|discriminate].
    simpl. fold (doc_ids docs).
    assert (Hstep : forall u1,
      groups u1 (seen ++ [a]) -> total_chunks u1.*2 = len (seen ++ [a]) ->
      group_loop docs u1 = Ok u' ->
      groups u' (seen ++ a :: doc_ids docs) /\
      total_chunks u'.*2 = len seen + len (doc :: docs) /\
      S (length (doc_ids docs)) = S (length docs)).
    { intros u1 Hg1 Htot1 Hrun1.
      destruct (IH u1 (seen ++ [a]) u' Hg1 Htot1 Hrun1) as (Hg' & Htot' & Hlen').
      rewrite <- app_assoc in Hg'. split; [exact Hg'|].
      split; [|rewrite Hlen'; reflexivity].
      rewrite Htot'. unfold len. rewrite length_app. simpl. lia. }
    unfold contains in Hrun. case_bool_decide as Hin.
    + apply Hstep in Hrun; [exact Hrun | apply groups_count; assumption |].
      rewrite count_chunk_total; [|apply Hg | exact Hin].
      rewrite Htot. unfold len. rewrite length_app. simpl. lia.
    + destruct (new_row doc) as [r|e] eqn:Hr; [|discriminate].
      assert (Hzero : chunks r = 0).
      { unfold new_row in Hr.
        repeat match type of Hr with
        | match ?x with _ => _ end = _ => destruct x; [|discriminate]
        end.
        injection Hr as <-. reflexivity. }
      apply Hstep in Hrun; [exact Hrun | apply groups_new; assumption |].
      assert (Hg2 := groups_new u seen a r Hg Hin Hzero).
      rewrite count_chunk_total; [|rewrite fmap_app; apply NoDup_app | ].
      * rewrite fmap_app. simpl. unfold total_chunks in *.
        rewrite foldr_app. simpl. rewrite Hzero.
        assert (Hf : forall (l : list row) z,
          foldr (fun r0 acc => chunks r0 + acc) z l =
          foldr (fun r0 acc => chunks r0 + acc) 0 l + z).
        { induction l as [|x l IHl]; intros z; simpl; [lia|]. rewrite IHl. lia. }
        rewrite Hf, Htot. unfold len. rewrite length_app. simpl. lia.
      * destruct Hg as (Hnd & _). split; [exact Hnd|].
        split; [|apply NoDup_singleton].
        intros b Hb Hb'. apply list_elem_of_singleton in Hb'. simpl in Hb'. congruence.
      * rewrite fmap_app, elem_of_app. right. simpl. left.
Qed.

Lemma groups_empty : groups [] [].
Proof.
  split; [constructor|]. split; [|constructor].
  intros a. simpl. split; intros H; inversion H.
Qed.

(** X18: The chunk counts of the listing add up: when [list_documents] answers
    with rows, the sum of their [chunks] is the number of records scanned,
    [len(documents[:limit])]. *)
Theorem list_documents_total (limit : Z) (search_engine : SearchEngine)
    (rows : list row) :
  list_documents limit search_engine = Body rows ->
  total_chunks rows = len (slice (documents search_engine) 0 limit).
Proof.
  unfold list_documents.
  destruct (group_loop _ []) as [u|e] eqn:Hrun; [|discriminate].
  intros [= <-].
  destruct (group_loop_groups _ [] [] u groups_empty eq_refl Hrun) as (_ & Htot & _).
  rewrite Htot. unfold len. simpl. lia.
Qed.

(** X19: The listing has one row per distinct document id among the records
    scanned, and each row counts the records with its id. *)
Theorem list_documents_rows (limit : Z) (search_engine : SearchEngine)
    (rows : list row) :
  list_documents limit search_engine = Body rows ->
  let ids := doc_ids (slice (documents search_engine) 0 limit) in
  length ids = length (slice (documents search_engine) 0 limit) /\
  exists distinct,
    NoDup distinct /\
    (forall a, a ∈ distinct <-> a ∈ ids) /\
    Forall2 (fun a r => chunks r = occurrences a ids) distinct rows.
Proof.
  unfold list_documents.
  destruct (group_loop _ []) as [u|e] eqn:Hrun; [|discriminate].
  intros H. injection H as <-.
  set (ids := doc_ids (slice (documents search_engine) 0 limit)).
  destruct (group_loop_groups _ [] [] u groups_empty eq_refl Hrun)
    as ((Hnd & Hdom & Hcnt) & _ & Hlen).
  simpl in Hdom, Hcnt. fold ids in Hdom, Hcnt. split; [exact Hlen|].
  exists u.*1. split; [exact Hnd|]. split; [exact Hdom|].
  apply Forall2_fmap. apply Forall_Forall2_diag. exact Hcnt.
Qed.

Lemma listing_example :
  let rec (id : string) (c : Z) : document :=
    {["metadata" :=
        VDict (<["doc_id" := AStr id]> (<["chunk_id" := AInt c]>
              (<["title" := AStr id]> (<["file_type" := AStr "txt"]>
              (<["source" := AStr id]> (<["created_at" := AInt 1]>
               {["modified_at" := AInt 2]}))))))]} in
  let engine :=
    set_documents (new_engine 1)
      [rec "a" 0; rec "b" 0; rec "a" 1; rec "a" 2; rec "c" 0] in
  chunks <$> (match list_documents 4 engine with Body rows => rows | _ => [] end)
    = [3; 1].
Proof. vm_compute. reflexivity. Qed.

Lemma list_documents_total_witness :
  let rec (id : string) (c : Z) : document :=
    {["metadata" :=
        VDict (<["doc_id" := AStr id]> (<["chunk_id" := AInt c]>
              (<["title" := AStr id]> (<["file_type" := AStr "txt"]>
              (<["source" := AStr id]> (<["created_at" := AInt 1]>
               {["modified_at" := AInt 2]}))))))]} in
  let engine :=
    set_documents (new_engine 1)
      [rec "a" 0; rec "b" 0; rec "a" 1; rec "a" 2; rec "c" 0] in
  let rows := match list_documents 4 engine with Body rows => rows | _ => [] end in
  list_documents 4 engine = Body rows /\ total_chunks rows = 4.
Proof.
  intros rec engine rows.
  assert (Hrun : list_documents 4 engine = Body rows) by (vm_compute; reflexivity).
  split; [exact Hrun|].
  rewrite (list_documents_total 4 engine rows Hrun). vm_compute. reflexivity.
Defined.

Lemma list_documents_rows_witness :
  let rec (id : string) (c : Z) : document :=
    {["metadata" :=
        VDict (<["doc_id" := AStr id]> (<["chunk_id" := AInt c]>
              (<["title" := AStr id]> (<["file_type" := AStr "txt"]>
              (<["source" := AStr id]> (<["created_at" := AInt 1]>
               {["modified_at" := AInt 2]}))))))]} in
  let engine :=
    set_documents (new_engine 1)
      [rec "a" 0; rec "b" 0; rec "a" 1; rec "a" 2; rec "c" 0] in
  let rows := match list_documents 4 engine with Body rows => rows | _ => [] end in
  list_documents 4 engine = Body rows /\
  length (doc_ids (slice (documents engine) 0 4)) = 4%nat.
Proof.
  intros rec engine rows.
  assert (Hrun : list_documents 4 engine = Body rows) by (vm_compute; reflexivity).
  split; [exact Hrun|].
  destruct (list_documents_rows 4 engine rows Hrun) as [Hlen _].
  rewrite Hlen. vm_compute. reflexivity.
Defined.

Lemma new_row_listable (doc : document) :
  listable doc -> exists r, new_row doc = Ok r.
Proof.
  unfold listable. rewrite !Forall_cons.
  intros (_ & [t Ht] & [f Hf] & [s0 Hs] & [c Hc] & [m Hm] & _).
  unfold new_row. rewrite Ht, Hf, Hs, Hc, Hm. eauto.
Qed.

Lemma group_loop_listable (docs : list document) :
  Forall listable docs -> forall u, exists u', group_loop docs u = Ok u'.
Proof.
  induction 1 as [|doc docs Hdoc _ IH]; intros u; simpl; [eauto|].
  assert (Hid : exists a, metadata_get doc "doc_id" = Ok a).
  { unfold listable in Hdoc. rewrite Forall_cons in Hdoc. tauto. }
  destruct Hid as [a ->]. destruct (contains u a); [apply IH|].
  destruct (new_row_listable doc Hdoc) as [r ->]. apply IH.
Qed.

Lemma group_loop_needs_id (docs : list document) :
  forall u u', group_loop docs u = Ok u' ->
    Forall (fun doc => exists a, metadata_get doc "doc_id" = Ok a) docs.
Proof.
  induction docs as [|doc docs IH]; intros u u' Hrun; simpl in Hrun; [constructor|].
  destruct (metadata_get doc "doc_id") as [a|e] eqn:Ha; [|discriminate].
  constructor; [eauto|]. destruct (contains u a); [eapply IH; exact Hrun|].
  destruct (new_row doc); [eapply IH; exact Hrun | discriminate].
Qed.

(** X20: The listing answers with rows when every record scanned has the six
    metadata keys it reads, and with status 500, never another status, when
    it does not answer with rows; a record scanned without a [doc_id] in
    its metadata makes it answer 500. *)
Theorem list_documents_status (limit : Z) (search_engine : SearchEngine) :
  let scanned := slice (documents search_engine) 0 limit in
  (Forall listable scanned ->
   exists rows, list_documents limit search_engine = Body rows) /\
  (forall status, list_documents limit search_engine = HTTPException status ->
                  status = 500) /\
  (forall doc e, doc ∈ scanned -> metadata_get doc "doc_id" = Raise e ->
                 list_documents limit search_engine = HTTPException 500).
Proof.
  intros scanned. unfold list_documents. fold scanned. split; [|split].
  - intros Hall. destruct (group_loop_listable scanned Hall []) as [u ->]. eauto.
  - intros status. destruct (group_loop scanned []); [discriminate|].
    intros [= <-]. reflexivity.
  - intros doc e Hin Hraise.
    destruct (group_loop scanned []) as [u|e'] eqn:Hrun; [|reflexivity].
    exfalso. apply group_loop_needs_id in Hrun. rewrite Forall_forall in Hrun.
    destruct (Hrun doc Hin) as [a Ha]. congruence.
Qed.

Lemma list_documents_status_witness :
  let stored : document :=
    <["text" := VStr "t"]>
      {["metadata" := VDict (<["doc_id" := AStr "a"]> {["chunk_id" := AInt 0]})]} in
  let bare : document := {["text" := VStr "t"]} in
  let engine := set_documents (new_engine 1) [stored; bare] in
  bare ∈ slice (documents engine) 0 100 /\
  metadata_get bare "doc_id" = Raise KeyError /\
  list_documents 100 engine = HTTPException 500.
Proof.
  intros stored bare engine.
  assert (Hin : bare ∈ slice (documents engine) 0 100).
  { apply list_elem_of_In. right. left. reflexivity. }
  assert (Hraise : metadata_get bare "doc_id" = Raise KeyError) by reflexivity.
  split; [exact Hin|]. split; [exact Hraise|].
  exact (proj2 (proj2 (list_documents_status 100 engine)) bare KeyError Hin Hraise).
Defined.

(** ** [summarize_document] *)

Lemma chunks_of_ok (doc_id : string) (docs : list document) (l : list document) :
  chunks_of doc_id docs = Ok l ->
  Forall (fun doc => exists a, metadata_get doc "doc_id" = Ok a) docs /\
  (l = [] <->
   Forall (fun doc => metadata_get doc "doc_id" <> Ok (AStr doc_id)) docs).
Proof.
  revert l. induction docs as [|doc docs IH]; intros l; simpl.
  - intros [= <-]. split; [constructor|]. split; [constructor | reflexivity].
  - destruct (metadata_get doc "doc_id") as [a|e] eqn:Ha; [|discriminate].
    destruct (chunks_of doc_id docs) as [l'|e]; [|discriminate].
    destruct (IH l' eq_refl) as [Hall Hnil]. intros [= <-].
    split; [constructor; eauto|]. case_bool_decide as Heq.
    + split; [discriminate|]. intros H. inversion H; subst. congruence.
    + rewrite Hnil. split.
      * intros H. constructor; [congruence | exact H].
      * intros H. inversion H; assumption.
Qed.

Lemma chunks_of_raises (doc_id : string) (docs : list document) (doc : document)
    (e : exn) :
  doc ∈ docs -> metadata_get doc "doc_id" = Raise e ->
  exists e', chunks_of doc_id docs = Raise e'.
Proof.
  intros Hin Hraise. induction docs as [|doc0 docs IH]; [inversion Hin|]. simpl.
  destruct (metadata_get doc0 "doc_id") as [a|e0] eqn:Ha; [|eauto].
  apply elem_of_cons in Hin as [->|Hin]; [congruence|].
  destruct (IH Hin) as [e' ->]. eauto.
Qed.

Lemma chunks_of_returns (doc_id : string) (docs : list document) :
  Forall (fun doc => exists a, metadata_get doc "doc_id" = Ok a) docs ->
  exists l, chunks_of doc_id docs = Ok l.
Proof.
  induction 1 as [|doc docs [a Ha] _ [l IH]]; simpl; [eauto|].
  rewrite Ha, IH. eauto.
Qed.

(** How the body of the [try] can end. *)
Lemma summarize_body_cases (doc_id : string) (docs : list document) :
  (chunks_of doc_id docs = Ok [] /\ summarize_body doc_id docs = Ok None) \/
  (exists e, summarize_body doc_id docs = Raise e) \/
  (exists doc0 l, chunks_of doc_id docs = Ok (doc0 :: l) /\
   exists t joined,
     summarize_body doc_id docs =
     Ok (Some {| summary_doc_id := doc_id; summary_title := t;
                 summary_text := shorten joined |})).
Proof.
  unfold summarize_body.
  destruct (chunks_of doc_id docs) as [[|doc0 l]|e]; [left; split; reflexivity | |eauto].
  right.
  destruct (with_keys (doc0 :: l)) as [keyed|e]; [|eauto].
  destruct (sort_by_key keyed) as [sorted|e]; [|eauto].
  destruct (texts_of (slice sorted.*2 0 3)) as [texts|e]; [|eauto].
  destruct (sorted.*2) as [|first rest]; [eauto|].
  destruct (metadata_get first "title") as [t|e]; [|eauto].
  right. exists doc0, l. split; [reflexivity|]. eauto.
Qed.

(** X21: The statuses of [summarize_document]: it answers 404 exactly when
    every stored record has a [doc_id] in its metadata and none of them is
    the string asked for; it answers no status other than 404 and 500; and
    one stored record without a [doc_id] makes it answer 500 for every
    document id. *)
Theorem summarize_document_status (doc_id : string) (search_engine : SearchEngine) :
  (summarize_document doc_id search_engine = HTTPException 404 <->
   Forall (fun doc => exists a, metadata_get doc "doc_id" = Ok a /\ a <> AStr doc_id)
     (documents search_engine)) /\
  (forall status,
     summarize_document doc_id search_engine = HTTPException status ->
     status = 404 \/ status = 500) /\
  (forall doc e,
     doc ∈ documents search_engine -> metadata_get doc "doc_id" = Raise e ->
     summarize_document doc_id search_engine = HTTPException 500).
Proof.
  unfold summarize_document. split; [|split].
  - split.
    + destruct (summarize_body_cases doc_id (documents search_engine))
        as [[Hl ->] | [[e ->] | (doc0 & l & _ & t & joined & ->)]];
        [|discriminate | discriminate].
      intros _. destruct (chunks_of_ok _ _ _ Hl) as [Hall Hnil].
      pose proof (proj1 Hnil eq_refl) as Hne.
      rewrite Forall_forall in *. intros doc Hin.
      destruct (Hall doc Hin) as [a Ha]. exists a. split; [exact Ha|].
      intros ->. exact (Hne doc Hin Ha).
    + intros Hall.
      assert (Hids : Forall (fun doc => exists a, metadata_get doc "doc_id" = Ok a)
                       (documents search_engine)).
      { eapply Forall_impl; [exact Hall|]. intros doc (a & Ha & _). eauto. }
      destruct (chunks_of_returns doc_id _ Hids) as [l Hl].
      destruct (chunks_of_ok _ _ _ Hl) as [_ Hnil].
      assert (l = []) as ->.
      { apply Hnil. eapply Forall_impl; [exact Hall|].
        intros doc (a & Ha & Hne). congruence. }
      unfold summarize_body. rewrite Hl. reflexivity.
  - intros status.
    destruct (summarize_body doc_id (documents search_engine)) as [[r|]|e];
      intros [= <-]; auto.
  - intros doc e Hin Hraise.
    destruct (chunks_of_raises doc_id _ doc e Hin Hraise) as [e' He'].
    unfold summarize_body. rewrite He'. reflexivity.
Qed.

Lemma summarize_document_status_witness :
  let stored : document :=
    <["text" := VStr "t"]>
      {["metadata" := VDict (<["doc_id" := AStr "a"]> {["chunk_id" := AInt 0]})]} in
  let bare : document := {["text" := VStr "t"]} in
  let engine := set_documents (new_engine 1) [stored; bare] in
  bare ∈ documents engine /\
  metadata_get bare "doc_id" = Raise KeyError /\
  summarize_document "a" engine = HTTPException 500 /\
  summarize_document "b" (new_engine 1) = HTTPException 404.
Proof.
  intros stored bare engine.
  assert (Hin : bare ∈ documents engine).
  { apply list_elem_of_In. right. left. reflexivity. }
  assert (Hraise : metadata_get bare "doc_id" = Raise KeyError) by reflexivity.
  split; [exact Hin|]. split; [exact Hraise|]. split.
  - exact (proj2 (proj2 (summarize_document_status "a" engine)) bare KeyError Hin Hraise).
  - apply (proj1 (summarize_document_status "b" (new_engine 1))). constructor.
Defined.

Lemma shorten_length (t : text) : len (shorten t) <= 1003.
Proof.
  unfold shorten. destruct (Z.ltb_spec 1000 (len t)) as [Hlong|Hshort]; [|lia].
  pose proof (ChunkerFacts.slice_length t 0 1000) as Hs.
  rewrite !PyFacts.adjust_in_range in Hs by lia.
  unfold len in *. rewrite length_app. simpl. lia.
Qed.

(** X22: A summary is never longer than 1003 characters: the first 1000 of the
    joined text and three dots, or the joined text itself when it has at
    most 1000; and it names the document id that was asked for. *)
Theorem summarize_document_length (doc_id : string) (search_engine : SearchEngine)
    (r : summary) :
  summarize_document doc_id search_engine = Body r ->
  len (summary_text r) <= 1003 /\ summary_doc_id r = doc_id.
Proof.
  unfold summarize_document.
  destruct (summarize_body_cases doc_id (documents search_engine))
    as [[_ ->] | [[e ->] | (doc0 & l & _ & t & joined & ->)]];
    [discriminate | discriminate |].
  intros [= <-]. simpl. split; [apply shorten_length | reflexivity].
Qed.

Lemma summarize_document_length_witness :
  let rec (c : Z) (t : string) : document :=
    <["text" := VStr t]>
      {["metadata" :=
          VDict (<["doc_id" := AStr "a"]> (<["chunk_id" := AInt c]>
                 {["title" := AStr "notes.txt"]}))]} in
  let engine := set_documents (new_engine 1) [rec 2 "third"; rec 0 "first"; rec 1 "second"] in
  let body := {| summary_doc_id := "a"; summary_title := AStr "notes.txt";
                 summary_text :=
                   list_ascii_of_string "first" ++ [Chunker.LF; Chunker.LF] ++
                   list_ascii_of_string "second" ++ [Chunker.LF; Chunker.LF] ++
                   list_ascii_of_string "third" |} in
  summarize_document "a" engine = Body body /\
  len (summary_text body) <= 1003 /\ summary_doc_id body = "a".
Proof.
  intros rec engine body.
  assert (Hrun : summarize_document "a" engine = Body body) by (vm_compute; reflexivity).
  split; [exact Hrun|].
  exact (summarize_document_length "a" engine body Hrun).
Defined.

End RoutesFacts.
